(** * peer/peer.go: UDP broadcast sender and listener

    A shallow embedding of [main] of peer/peer.go.  The program is two threads
    of control (the main goroutine and the one started by the [go] statement)
    that only talk to the outside world: the clock, the random source, the
    logger and the UDP sockets.  Each call into that world is one atomic step
    of the embedding; the value the world gives back is read from an [Answer],
    and the scheduler that picks which goroutine moves next is a list of
    [Thread]s.  Every step records what it did in the history of the state, so
    the properties below are properties of every history the program can
    produce. *)

From Stdlib Require Import ZArith List Bool Lia.
From Stdlib.Strings Require Import String Ascii Byte.
Import ListNotations.
Open Scope Z_scope.

(** Go's [+] on strings. *)
Infix "+++" := String.append (at level 60, right associativity).

(** [s |> f |> g]: the state [s] passed through [f], then [g]. *)
Notation "s '|>' f" := (f s) (at level 65, left associativity, only parsing).

(** ** The parts of Go's library the program calls *)

Module Go.

(** An [error], as the program uses it: the text of [err.Error()]. *)
Definition error := string.

(** The decimal digit [d] (0..9) as a character. *)
Definition digit (d : Z) : ascii := ascii_of_nat (48 + Z.to_nat d).

(** The decimal digits of [u], most significant first, put in front of
    [acc]; at least one digit is produced. *)
Fixpoint formatBits (fuel : nat) (u : Z) (acc : string) : string :=
  match fuel with
  | O => acc
  | S fuel' =>
      let acc' := String (digit (u mod 10)) acc in
      if u / 10 =? 0 then acc' else formatBits fuel' (u / 10) acc'
  end.

(** [strconv.Itoa]: base 10, a leading minus sign for a negative number.
    A 64-bit [int] has at most 19 digits. *)
Definition Itoa (i : Z) : string :=
  if i <? 0 then String "-" (formatBits 20 (- i) "") else formatBits 20 i "".

(** [time.Second], in nanoseconds. *)
Definition Second : Z := 1000000000.

(** [*net.UDPAddr]; a nil pointer is [None].  [IP] is the address as the
    [String] method of [net.IP] writes it (dotted for IPv4, with colons for
    IPv6), the empty string for an empty address; [Zone] is the IPv6 scope
    zone, empty when there is none. *)
Record UDPAddr := mkUDPAddr { IP : string; Port : Z; Zone : string }.

(** Whether [s] has a colon in it. *)
Fixpoint has_colon (s : string) : bool :=
  match s with
  | EmptyString => false
  | String c s' => Ascii.eqb c ":" || has_colon s'
  end.

(** [net.JoinHostPort]: a host with a colon in it is taken for a literal
    IPv6 address and put in brackets. *)
Definition JoinHostPort (host port : string) : string :=
  if has_colon host
  then "[" +++ host +++ "]:" +++ port
  else host +++ ":" +++ port.

(** The [String] method of [UDPAddr], which [%s] calls: [<nil>] for a nil
    pointer; otherwise host and port joined, the zone, if any, behind the
    host after a percent sign. *)
Definition UDPAddr_String (a : option UDPAddr) : string :=
  match a with
  | None => "<nil>"
  | Some a =>
      match Zone a with
      | EmptyString => JoinHostPort (IP a) (Itoa (Port a))
      | zone => JoinHostPort (IP a +++ "%" +++ zone) (Itoa (Port a))
      end
  end.

(** [*net.UDPConn]: the socket's local and remote address. *)
Record UDPConn := mkUDPConn { LocalAddr : option UDPAddr; RemoteAddr : option UDPAddr }.

(** [make([]byte, n)]: [n] zero bytes. *)
Definition make (n : nat) : list byte := repeat x00 n.

(** The slice expression [b[lo:hi]]; [None] is the run-time panic
    "slice bounds out of range". *)
Definition slice (b : list byte) (lo hi : Z) : option (list byte) :=
  if (0 <=? lo) && (lo <=? hi) && (hi <=? Z.of_nat (List.length b))
  then Some (firstn (Z.to_nat (hi - lo)) (skipn (Z.to_nat lo) b))
  else None.

(** The copy [conn.ReadFromUDP(b)] makes when the kernel has the datagram
    [dgram] for the socket: as many bytes as fit are copied to the front of
    [b], the rest of the datagram is discarded (the comment above [buf] in
    main), the bytes of [b] behind the copy keep their old value.  The
    result is the count of bytes copied and the buffer after the call. *)
Definition ReadFromUDP (b dgram : list byte) : Z * list byte :=
  let n := Nat.min (List.length dgram) (List.length b) in
  (Z.of_nat n, firstn n dgram ++ skipn n b).

(** One call [conn.ReadFromUDP(b)], from what the kernel answers.  When
    the kernel fails with an error, nothing is copied and the call returns
    the count 0, a nil sender and that error.  When the kernel delivers the
    datagram [dgram] sent by [from], the bytes are copied as [ReadFromUDP]
    says and the call returns no error, also when the datagram is longer
    than [b]: this is [recvfrom] of Linux and the other POSIX systems, which
    drops the bytes that do not fit and reports nothing (on Windows the
    kernel reports them as an error, a case this embedding leaves out).  The
    result is the datagram delivered (none for a failed read), the count,
    the sender, the error and the buffer after the call. *)
Definition recvfrom (b dgram : list byte) (from : option UDPAddr)
    (err : option error)
  : list byte * Z * option UDPAddr * option error * list byte :=
  match err with
  | Some e => ([], 0, None, Some e, b)
  | None =>
      let '(n, b') := ReadFromUDP b dgram in
      (dgram, n, from, None, b')
  end.

End Go.
Import Go.

(** ** What the outside world gives back *)

(** One answer of the world to a call; each call reads the field it needs.
    [rand_int] is the value of [rand.Int()], [resolved] of
    [net.ResolveUDPAddr], [dialed] the local address the kernel picked for
    [net.DialUDP] or its error, [written] the error of [conn.Write],
    [listened] the error of [net.ListenUDP]; [read_err] is the error the
    kernel answers one [ReadFromUDP] with and, when there is none, [dgram]
    and [from] are the datagram it delivers and the sender of it. *)
Record Answer := mkAnswer {
  now : Z;
  rand_int : Z;
  resolved : UDPAddr + error;
  dialed : UDPAddr + error;
  written : option error;
  listened : option error;
  dgram : list byte;
  from : option UDPAddr;
  read_err : option error
}.

(** ** Histories *)

Inductive Thread := Main | Goroutine.

(** A call the program made, with its arguments and what came back.  A
    read is recorded with the datagram it delivered, which is empty when the
    read failed. *)
Inductive event :=
| EvNow (t : Z)
| EvSeed (seed : Z)
| EvRandInt (r : Z)
| EvPrintf (line : string)
| EvFatalf (line : string)
| EvResolveUDPAddr (address : string) (res : UDPAddr + error)
| EvGo
| EvDialUDP (raddr : option UDPAddr) (res : UDPConn + error)
| EvSleep (d : Z)
| EvWrite (c : option UDPConn) (b : list byte) (res : option error)
| EvListenUDP (laddr : option UDPAddr) (res : UDPConn + error)
| EvReadFromUDP (c : option UDPConn) (datagram : list byte) (n : Z)
    (addr : option UDPAddr) (err : option error)
| EvPanic (msg : string)
| EvClose (c : option UDPConn)
| EvReturn.

(** ** The program *)

(** We sent to, and listen on, the same port. *)
Definition commonPort : Z := 2002.

(** The two strings main resolves (lines 31 and 60). *)
Definition broadcastAddress : string := "255.255.255.255:" +++ Itoa commonPort.
Definition listenAddress : string := ":" +++ Itoa commonPort.

Inductive Status := Running | Exited (code : Z).

(** Where the main goroutine is: the call it makes next, by source line.
    The locals that are live only between two calls ride on the point. *)
Inductive MainPC :=
| M25_Now
| M25_Seed (t : Z)
| M26_RandInt
| M27_Printf
| M30_Printf
| M31_Resolve
| M33_Fatalf (err : error)
| M35_Printf
| M38_Go
| M59_Printf
| M60_Resolve
| M62_Fatalf (err : error)
| M64_Printf
| M67_Printf
| M68_Listen
| M70_Fatalf (err : error)
| M85_Read
| M86_Printf (n : Z) (addr : option UDPAddr) (err : option error)
| M88_Printf (err : error)
| M92_Return.

(** Where the background goroutine is. *)
Inductive GoPC :=
| G40_Printf
| G41_Dial
| G43_Fatalf (err : error)
| G47_Sleep
| G48_Printf
| G49_Write
| G50_Printf (err : error).

(** The state of the process: the variables of main (the closure of the
    goroutine reads [name] and [bCastAddr] and has its own [conn], here
    [gconn]), the two program points, and the history, newest call first. *)
Record State := mkState {
  status : Status;
  main : MainPC;
  goroutine : option GoPC;
  name : string;
  bCastAddr : option UDPAddr;
  gconn : option UDPConn;
  listenAddr : option UDPAddr;
  conn : option UDPConn;
  deferred : list (option UDPConn);
  buf : list byte;
  hist : list (Thread * event)
}.

Definition init : State :=
  {| status := Running; main := M25_Now; goroutine := None; name := "";
     bCastAddr := None; gconn := None; listenAddr := None; conn := None;
     deferred := []; buf := []; hist := [] |}.

Definition emit (t : Thread) (e : event) (s : State) : State :=
  mkState (status s) (main s) (goroutine s) (name s) (bCastAddr s) (gconn s)
    (listenAddr s) (conn s) (deferred s) (buf s) ((t, e) :: hist s).

Definition goto (pc : MainPC) (s : State) : State :=
  mkState (status s) pc (goroutine s) (name s) (bCastAddr s) (gconn s)
    (listenAddr s) (conn s) (deferred s) (buf s) (hist s).

Definition go_goto (pc : GoPC) (s : State) : State :=
  mkState (status s) (main s) (Some pc) (name s) (bCastAddr s) (gconn s)
    (listenAddr s) (conn s) (deferred s) (buf s) (hist s).

(** [os.Exit(code)]: the whole process is gone. *)
Definition exit (code : Z) (s : State) : State :=
  mkState (Exited code) (main s) (goroutine s) (name s) (bCastAddr s) (gconn s)
    (listenAddr s) (conn s) (deferred s) (buf s) (hist s).

Definition set_name (v : string) (s : State) : State :=
  mkState (status s) (main s) (goroutine s) v (bCastAddr s) (gconn s)
    (listenAddr s) (conn s) (deferred s) (buf s) (hist s).

Definition set_bCastAddr (v : option UDPAddr) (s : State) : State :=
  mkState (status s) (main s) (goroutine s) (name s) v (gconn s)
    (listenAddr s) (conn s) (deferred s) (buf s) (hist s).

Definition set_gconn (v : option UDPConn) (s : State) : State :=
  mkState (status s) (main s) (goroutine s) (name s) (bCastAddr s) v
    (listenAddr s) (conn s) (deferred s) (buf s) (hist s).

Definition set_listenAddr (v : option UDPAddr) (s : State) : State :=
  mkState (status s) (main s) (goroutine s) (name s) (bCastAddr s) (gconn s)
    v (conn s) (deferred s) (buf s) (hist s).

Definition set_conn (v : option UDPConn) (s : State) : State :=
  mkState (status s) (main s) (goroutine s) (name s) (bCastAddr s) (gconn s)
    (listenAddr s) v (deferred s) (buf s) (hist s).

Definition set_deferred (v : list (option UDPConn)) (s : State) : State :=
  mkState (status s) (main s) (goroutine s) (name s) (bCastAddr s) (gconn s)
    (listenAddr s) (conn s) v (buf s) (hist s).

Definition set_buf (v : list byte) (s : State) : State :=
  mkState (status s) (main s) (goroutine s) (name s) (bCastAddr s) (gconn s)
    (listenAddr s) (conn s) (deferred s) v (hist s).

(** [log.Fatalf]: the line is printed, then [os.Exit(1)].  The two are one
    step here: there is no state between the line and the exit, in which
    the other thread could still make a call. *)
Definition fatalf (t : Thread) (line : string) (s : State) : State :=
  s |> emit t (EvFatalf line) |> exit 1.

(** One call of the main goroutine (lines 25 to 92). *)
Definition main_step (a : Answer) (s : State) : State :=
  match main s with
  | M25_Now =>
      s |> emit Main (EvNow (now a)) |> goto (M25_Seed (now a))
  | M25_Seed t =>
      s |> emit Main (EvSeed t) |> goto M26_RandInt
  | M26_RandInt =>
      s |> emit Main (EvRandInt (rand_int a))
        |> set_name ("peer-" +++ Itoa (rand_int a)) |> goto M27_Printf
  | M27_Printf =>
      s |> emit Main (EvPrintf ("I am " +++ name s)) |> goto M30_Printf
  | M30_Printf =>
      s |> emit Main (EvPrintf "Resolving broadcast address..") |> goto M31_Resolve
  | M31_Resolve =>
      let s' := s |> emit Main (EvResolveUDPAddr broadcastAddress (resolved a)) in
      match resolved a with
      | inr err => s' |> goto (M33_Fatalf err)
      | inl addr => s' |> set_bCastAddr (Some addr) |> goto M35_Printf
      end
  | M33_Fatalf err =>
      s |> fatalf Main ("Error: Failed to resolve broadcast address: " +++ err)
  | M35_Printf =>
      s |> emit Main (EvPrintf ("Resolved " +++ UDPAddr_String (bCastAddr s) +++ "."))
        |> goto M38_Go
  | M38_Go =>
      s |> emit Main EvGo |> go_goto G40_Printf |> goto M59_Printf
  | M59_Printf =>
      s |> emit Main (EvPrintf "Resolving listen address..") |> goto M60_Resolve
  | M60_Resolve =>
      let s' := s |> emit Main (EvResolveUDPAddr listenAddress (resolved a)) in
      match resolved a with
      | inr err => s' |> goto (M62_Fatalf err)
      | inl addr => s' |> set_listenAddr (Some addr) |> goto M64_Printf
      end
  | M62_Fatalf err =>
      s |> fatalf Main ("Error: Failed to resolve listen address: " +++ err)
  | M64_Printf =>
      s |> emit Main (EvPrintf ("Resolved " +++ UDPAddr_String (listenAddr s) +++ "."))
        |> goto M67_Printf
  | M67_Printf =>
      s |> emit Main (EvPrintf "Beginning to listen..") |> goto M68_Listen
  | M68_Listen =>
      match listened a with
      | Some err =>
          s |> emit Main (EvListenUDP (listenAddr s) (inr err)) |> goto (M70_Fatalf err)
      | None =>
          let c := mkUDPConn (listenAddr s) None in
          s |> emit Main (EvListenUDP (listenAddr s) (inl c))
            |> set_conn (Some c)
            |> set_deferred (Some c :: deferred s)
            |> set_buf (make 1024)
            |> goto M85_Read
      end
  | M70_Fatalf err =>
      s |> fatalf Main ("Error: Failed to listen: " +++ err)
  | M85_Read =>
      let '(d, n, addr, err, buf') :=
        recvfrom (buf s) (dgram a) (from a) (read_err a) in
      s |> emit Main (EvReadFromUDP (conn s) d n addr err)
        |> set_buf buf'
        |> goto (M86_Printf n addr err)
  | M86_Printf n addr err =>
      match slice (buf s) 0 n with
      | None =>
          s |> emit Main (EvPanic "slice bounds out of range") |> exit 2
      | Some payload =>
          s |> emit Main (EvPrintf ("Received '" +++ string_of_list_byte payload
                                    +++ "' from " +++ UDPAddr_String addr))
            |> goto (match err with Some e => M88_Printf e | None => M85_Read end)
      end
  | M88_Printf err =>
      s |> emit Main (EvPrintf ("Error: " +++ err)) |> goto M85_Read
  | M92_Return =>
      match deferred s with
      | c :: rest => s |> emit Main (EvClose c) |> set_deferred rest
      | [] => s |> emit Main EvReturn |> exit 0
      end
  end.

(** One call of the background goroutine (lines 40 to 55). *)
Definition goroutine_step (a : Answer) (pc : GoPC) (s : State) : State :=
  match pc with
  | G40_Printf =>
      s |> emit Goroutine (EvPrintf "Dialing broadcast address..") |> go_goto G41_Dial
  | G41_Dial =>
      match dialed a with
      | inr err =>
          s |> emit Goroutine (EvDialUDP (bCastAddr s) (inr err))
            |> go_goto (G43_Fatalf err)
      | inl laddr =>
          let c := mkUDPConn (Some laddr) (bCastAddr s) in
          s |> emit Goroutine (EvDialUDP (bCastAddr s) (inl c))
            |> set_gconn (Some c) |> go_goto G47_Sleep
      end
  | G43_Fatalf err =>
      s |> fatalf Goroutine ("Error: Failed to dial: " +++ err)
  | G47_Sleep =>
      s |> emit Goroutine (EvSleep Second) |> go_goto G48_Printf
  | G48_Printf =>
      s |> emit Goroutine (EvPrintf "Broadcasting..") |> go_goto G49_Write
  | G49_Write =>
      s |> emit Goroutine (EvWrite (gconn s) (list_byte_of_string (name s)) (written a))
        |> go_goto (match written a with Some e => G50_Printf e | None => G47_Sleep end)
  | G50_Printf err =>
      s |> emit Goroutine (EvPrintf ("Error: " +++ err)) |> go_goto G47_Sleep
  end.

(** The scheduler lets thread [t] make its next call, answered by [a].
    Nothing moves once the process has exited, and the goroutine does not
    move before the [go] statement has started it. *)
Definition step (t : Thread) (a : Answer) (s : State) : State :=
  match status s with
  | Exited _ => s
  | Running =>
      match t with
      | Main => main_step a s
      | Goroutine =>
          match goroutine s with
          | None => s
          | Some pc => goroutine_step a pc s
          end
      end
  end.

(** A run: the scheduler's choices and the world's answers, in order. *)
Definition Schedule := list (Thread * Answer).

Definition run (sched : Schedule) (s : State) : State :=
  fold_left (fun s ta => step (fst ta) (snd ta) s) sched s.

(** ** Reading histories *)

Definition Thread_eqb (t u : Thread) : bool :=
  match t, u with
  | Main, Main | Goroutine, Goroutine => true
  | _, _ => false
  end.

(** The calls thread [t] made, newest first. *)
Fixpoint calls_of (t : Thread) (h : list (Thread * event)) : list event :=
  match h with
  | [] => []
  | (u, e) :: h' => if Thread_eqb t u then e :: calls_of t h' else calls_of t h'
  end.

(** Some call of the history satisfies [p]. *)
Definition happened (p : event -> bool) (h : list (Thread * event)) : bool :=
  existsb (fun te => p (snd te)) h.

(** [P] holds of the history at every moment: of [h], and of [h] with its
    newest call removed, and so on.  With the newest call first, [P] reads a
    call together with the calls before it. *)
Fixpoint always {A : Type} (P : list A -> Prop) (h : list A) : Prop :=
  P h /\ match h with
         | [] => True
         | _ :: h' => always P h'
         end.

Definition is_socket_op (e : event) : bool :=
  match e with
  | EvDialUDP _ _ | EvWrite _ _ _ | EvListenUDP _ _ | EvReadFromUDP _ _ _ _ _ => true
  | _ => false
  end.

Definition is_listener_op (e : event) : bool :=
  match e with
  | EvListenUDP _ _ | EvReadFromUDP _ _ _ _ _ => true
  | _ => false
  end.

Definition failed_resolve (e : event) : bool :=
  match e with
  | EvResolveUDPAddr _ (inr _) => true
  | _ => false
  end.

Definition failed_resolve_of (address : string) (e : event) : bool :=
  match e with
  | EvResolveUDPAddr ad (inr _) => String.eqb ad address
  | _ => false
  end.

Definition failed_dial (e : event) : bool :=
  match e with
  | EvDialUDP _ (inr _) => true
  | _ => false
  end.

Definition failed_listen (e : event) : bool :=
  match e with
  | EvListenUDP _ (inr _) => true
  | _ => false
  end.

Definition dial_ok (e : event) : bool :=
  match e with
  | EvDialUDP _ (inl _) => true
  | _ => false
  end.

Definition listen_ok (e : event) : bool :=
  match e with
  | EvListenUDP _ (inl _) => true
  | _ => false
  end.

Definition is_rand_int (e : event) : bool :=
  match e with
  | EvRandInt _ => true
  | _ => false
  end.

Definition is_close_or_return (e : event) : bool :=
  match e with
  | EvClose _ | EvReturn => true
  | _ => false
  end.

Definition is_panic (e : event) : bool :=
  match e with
  | EvPanic _ => true
  | _ => false
  end.

(** The points of main before the goroutine exists (lines 25 to 38). *)
Definition before_go (pc : MainPC) : bool :=
  match pc with
  | M25_Now | M25_Seed _ | M26_RandInt | M27_Printf | M30_Printf | M31_Resolve
  | M33_Fatalf _ | M35_Printf | M38_Go => true
  | _ => false
  end.

(** The points of the listener loop (lines 80 to 90). *)
Definition in_listener_loop (pc : MainPC) : bool :=
  match pc with
  | M85_Read | M86_Printf _ _ _ | M88_Printf _ => true
  | _ => false
  end.

(** The points of the broadcaster loop (lines 46 to 55). *)
Definition in_broadcaster_loop (g : option GoPC) : bool :=
  match g with
  | Some G47_Sleep | Some G48_Printf | Some G49_Write | Some (G50_Printf _) => true
  | _ => false
  end.

(** A point at which the next call is [log.Fatalf]. *)
Definition main_at_fatalf (pc : MainPC) : bool :=
  match pc with
  | M33_Fatalf _ | M62_Fatalf _ | M70_Fatalf _ => true
  | _ => false
  end.

Definition goroutine_at_fatalf (g : option GoPC) : bool :=
  match g with
  | Some (G43_Fatalf _) => true
  | _ => false
  end.

(** The line of [log.Printf("Received '%s' from %s", string(payload), addr)]. *)
Definition received_line (payload : list byte) (addr : option UDPAddr) : string :=
  "Received '" +++ string_of_list_byte payload +++ "' from " +++ UDPAddr_String addr.


(** ** What every reachable state satisfies *)

(** The goroutine exists exactly from the [go] statement on; main never
    reaches the end of the function; inside the listener loop the buffer has
    its 1024 bytes and a count returned by a read fits in it; and the process
    only ever exits through [log.Fatalf], with status 1. *)
Definition wf (s : State) : Prop :=
  (if before_go (main s)
   then goroutine s = None /\ calls_of Goroutine (hist s) = []
   else goroutine s <> None)
  /\ main s <> M92_Return
  /\ (in_listener_loop (main s) = true -> List.length (buf s) = 1024%nat)
  /\ (forall n addr err, main s = M86_Printf n addr err -> 0 <= n <= 1024)
  /\ (forall c, status s = Exited c ->
        c = 1 /\ (main_at_fatalf (main s) || goroutine_at_fatalf (goroutine s)) = true).

(** How the newest calls of main determine where main is: after a read it
    is at the "Received" line with the count, sender and error of that read,
    and the front of the buffer is the front of the datagram; one line after
    a read it is at the error line or back at the read; two lines after a
    read it is back at the read. *)
Definition main_follows_history (s : State) : Prop :=
  (forall c d n addr err h',
      calls_of Main (hist s) = EvReadFromUDP c d n addr err :: h' ->
      main s = M86_Printf n addr err /\ c = conn s
      /\ n = Z.of_nat (Nat.min (List.length d) 1024)
      /\ firstn (Z.to_nat n) (buf s) = firstn (Z.to_nat n) d)
  /\ (forall l c d n addr err h',
      calls_of Main (hist s) = EvPrintf l :: EvReadFromUDP c d n addr err :: h' ->
      main s = match err with Some e => M88_Printf e | None => M85_Read end)
  /\ (forall l2 l1 c d n addr err h',
      calls_of Main (hist s)
      = EvPrintf l2 :: EvPrintf l1 :: EvReadFromUDP c d n addr err :: h' ->
      main s = M85_Read).

(** The same for the goroutine: after the dial it is at the sleep or at the
    fatal line; after a write at the error line or back at the sleep; and
    when it is about to print or to write, the sleep is just behind it. *)
Definition goroutine_follows_history (s : State) : Prop :=
  (forall raddr res h',
      calls_of Goroutine (hist s) = EvDialUDP raddr res :: h' ->
      goroutine s = Some match res with inl _ => G47_Sleep | inr e => G43_Fatalf e end)
  /\ (forall c b res h',
      calls_of Goroutine (hist s) = EvWrite c b res :: h' ->
      goroutine s = Some match res with Some e => G50_Printf e | None => G47_Sleep end)
  /\ (forall l c b e h',
      calls_of Goroutine (hist s) = EvPrintf l :: EvWrite c b (Some e) :: h' ->
      goroutine s = Some G47_Sleep)
  /\ (goroutine s = Some G48_Printf ->
      exists h', calls_of Goroutine (hist s) = EvSleep Second :: h')
  /\ (goroutine s = Some G49_Write ->
      exists h', calls_of Goroutine (hist s)
                 = EvPrintf "Broadcasting.." :: EvSleep Second :: h').

Definition at_line_33 (pc : MainPC) : bool :=
  match pc with M33_Fatalf _ => true | _ => false end.

Definition at_line_62 (pc : MainPC) : bool :=
  match pc with M62_Fatalf _ => true | _ => false end.

Definition at_line_70 (pc : MainPC) : bool :=
  match pc with M70_Fatalf _ => true | _ => false end.

(** The points of main from the call of [net.ListenUDP] on. *)
Definition after_listen (pc : MainPC) : bool :=
  match pc with
  | M70_Fatalf _ | M85_Read | M86_Printf _ _ _ | M88_Printf _ | M92_Return => true
  | _ => false
  end.

(** What the history says about the start-up agrees with where the two
    threads are: a failed resolution, dial or bind has happened exactly when
    the thread that made the call is at the [log.Fatalf] behind it; a dial or
    a bind has succeeded exactly when that thread is in its loop; no socket
    call is made before the [go] statement and none by the listener before
    line 68; nothing is closed and nothing panics; the deferred close of the
    listening socket is pending from line 72 on. *)
Definition startup_matches_history (s : State) : Prop :=
  happened (failed_resolve_of broadcastAddress) (hist s) = at_line_33 (main s)
  /\ happened (failed_resolve_of listenAddress) (hist s) = at_line_62 (main s)
  /\ happened failed_resolve (hist s) = at_line_33 (main s) || at_line_62 (main s)
  /\ happened failed_listen (hist s) = at_line_70 (main s)
  /\ happened listen_ok (hist s) = in_listener_loop (main s)
  /\ happened failed_dial (hist s) = goroutine_at_fatalf (goroutine s)
  /\ happened dial_ok (hist s) = in_broadcaster_loop (goroutine s)
  /\ (before_go (main s) = true -> happened is_socket_op (hist s) = false)
  /\ (after_listen (main s) = false -> happened is_listener_op (hist s) = false)
  /\ happened is_close_or_return (hist s) = false
  /\ happened is_panic (hist s) = false
  /\ deferred s = (if in_listener_loop (main s) then [conn s] else []).

(** ** Concrete worlds and schedules *)

Definition limited_broadcast : UDPAddr := mkUDPAddr "255.255.255.255" 2002 "".
Definition all_interfaces : UDPAddr := mkUDPAddr "" 2002 "".
Definition own_source : UDPAddr := mkUDPAddr "192.168.1.7" 51234 "".
Definition other_peer : UDPAddr := mkUDPAddr "192.168.1.9" 40000 "".

(** Senders with an IPv6 address: the loopback address, and a link-local
    address with its zone. *)
Definition loopback6 : UDPAddr := mkUDPAddr "::1" 40001 "".
Definition link_local6 : UDPAddr := mkUDPAddr "fe80::1" 40002 "eth0".

(** A world in which every call succeeds and the datagram that arrives is
    the process's own broadcast. *)
Definition world : Answer :=
  {| now := 1700000000000000000;
     rand_int := 5577006791947779410;
     resolved := inl limited_broadcast;
     dialed := inl own_source;
     written := None;
     listened := None;
     dgram := list_byte_of_string "peer-5577006791947779410";
     from := Some own_source;
     read_err := None |}.

(** The same world, answering the resolution of the listen address. *)
Definition world_listen : Answer :=
  mkAnswer (now world) (rand_int world) (inl all_interfaces) (dialed world)
    (written world) (listened world) (dgram world) (from world) (read_err world).

(** Worlds in which one call fails. *)
Definition world_unresolved : Answer :=
  mkAnswer (now world) (rand_int world) (inr "missing port in address"%string)
    (dialed world) (written world) (listened world) (dgram world) (from world)
    (read_err world).

Definition world_undialed : Answer :=
  mkAnswer (now world) (rand_int world) (resolved world)
    (inr "network is unreachable"%string) (written world) (listened world)
    (dgram world) (from world) (read_err world).

Definition world_unbound : Answer :=
  mkAnswer (now world) (rand_int world) (resolved world) (dialed world)
    (written world) (Some "address already in use"%string) (dgram world) (from world)
    (read_err world).

Definition world_unwritten : Answer :=
  mkAnswer (now world) (rand_int world) (resolved world) (dialed world)
    (Some "sendto: network is down"%string) (listened world) (dgram world) (from world)
    (read_err world).

Definition world_unread : Answer :=
  mkAnswer (now world) (rand_int world) (resolved world) (dialed world)
    (written world) (listened world) [] None (Some "use of closed network connection"%string).

(** A datagram of 1030 bytes: 1024 times 'a', then "-tail!". *)
Definition world_oversized : Answer :=
  mkAnswer (now world) (rand_int world) (resolved world) (dialed world)
    (written world) (listened world)
    (repeat "a"%byte 1024 ++ list_byte_of_string "-tail!")
    (Some other_peer) None.

(** Datagrams that arrive from the two IPv6 senders. *)
Definition world_loopback6 : Answer :=
  mkAnswer (now world) (rand_int world) (resolved world) (dialed world)
    (written world) (listened world) (list_byte_of_string "peer-42")
    (Some loopback6) None.

Definition world_link_local6 : Answer :=
  mkAnswer (now world) (rand_int world) (resolved world) (dialed world)
    (written world) (listened world) (list_byte_of_string "peer-43")
    (Some link_local6) None.

(** A read that fails although a datagram is waiting. *)
Definition world_unread_pending : Answer :=
  mkAnswer (now world) (rand_int world) (resolved world) (dialed world)
    (written world) (listened world) (dgram world) (from world)
    (Some "use of closed network connection"%string).

(** Main runs lines 25 to 38: the goroutine has just been started. *)
Definition until_go : Schedule := repeat (Main, world) 8.

(** The goroutine dials (lines 40 and 41). *)
Definition dial : Schedule := repeat (Goroutine, world) 2.

(** One round of the broadcaster loop (lines 47 to 49). *)
Definition broadcast_once : Schedule := repeat (Goroutine, world) 3.

(** Main resolves the listen address and binds (lines 59 to 68). *)
Definition bind : Schedule :=
  [(Main, world); (Main, world_listen); (Main, world); (Main, world); (Main, world)].

(** A whole start-up without error, the goroutine first. *)
Definition startup : Schedule := until_go ++ dial ++ bind.

(** A start-up and the first round of the broadcaster up to its write. *)
Definition at_write : Schedule :=
  startup ++ [(Goroutine, world); (Goroutine, world)].

(** The goroutine dials and broadcasts once; then the resolution of the
    listen address fails and main calls [log.Fatalf]. *)
Definition listen_unresolved : Schedule :=
  until_go ++ dial ++ broadcast_once
  ++ [(Main, world); (Main, world_unresolved); (Main, world)].

(** The resolution of the broadcast address fails. *)
Definition broadcast_unresolved : Schedule :=
  repeat (Main, world) 5 ++ [(Main, world_unresolved)].

(** The dial fails while main is on its way to the bind. *)
Definition dial_fails : Schedule :=
  until_go ++ [(Goroutine, world); (Main, world); (Goroutine, world_undialed)].

(** The bind fails after the goroutine has dialed. *)
Definition bind_fails : Schedule :=
  until_go ++ dial
  ++ [(Main, world); (Main, world_listen); (Main, world); (Main, world);
      (Main, world_unbound)].

(** The process terminated on a failed resolution, and a socket call had
    been made: what claim C1 excludes. *)
Definition failed_resolution_after_socket_op (s : State) : Prop :=
  happened failed_resolve (hist s) = true
  /\ status s = Exited 1
  /\ happened is_socket_op (hist s) = true.

(** The start-up call of thread [t] that can fail after the resolutions:
    the bind for main, the dial for the goroutine. *)
Definition startup_failure (t : Thread) : event -> bool :=
  match t with
  | Main => failed_listen
  | Goroutine => failed_dial
  end.

(** ** The properties of histories the claims are about *)

(** C5, C6: the call main makes after a read is the "Received" line, with
    the bytes the read copied (the first [n] of the datagram) and its sender. *)
Definition read_is_logged (h : list event) : Prop :=
  forall e c d n addr err h',
    h = e :: EvReadFromUDP c d n addr err :: h' ->
    e = EvPrintf (received_line (firstn (Z.to_nat n) d) addr).

(** C6: the count a read returns is the length of the datagram, or 1024 when
    the datagram is longer. *)
Definition read_count_is_bounded (h : list event) : Prop :=
  forall c d n addr err h',
    h = EvReadFromUDP c d n addr err :: h' ->
    n = Z.of_nat (Nat.min (List.length d) 1024).

(** C6: a read that returned an error delivered no datagram, its count is 0
    and its sender nil; so a read that delivered a datagram, of whatever
    length, returned no error. *)
Definition failed_read_is_empty (h : list event) : Prop :=
  forall c d n addr err h',
    h = EvReadFromUDP c d n addr (Some err) :: h' ->
    d = [] /\ n = 0 /\ addr = None.

(** C10: after a read that returned an error main prints the "Received"
    line of that read first and the error second. *)
Definition failed_read_is_logged (h : list event) : Prop :=
  (forall e1 c d n addr err h',
      h = e1 :: EvReadFromUDP c d n addr (Some err) :: h' ->
      e1 = EvPrintf (received_line (firstn (Z.to_nat n) d) addr))
  /\ (forall e2 e1 c d n addr err h',
      h = e2 :: e1 :: EvReadFromUDP c d n addr (Some err) :: h' ->
      e2 = EvPrintf ("Error: " +++ err)).

(** C2, the listener: after a failed read, the "Received" line and the
    error line, main reads again. *)
Definition failed_read_continues (h : list event) : Prop :=
  (forall e2 e1 c d n addr err h',
      h = e2 :: e1 :: EvReadFromUDP c d n addr (Some err) :: h' ->
      e2 = EvPrintf ("Error: " +++ err))
  /\ (forall e3 e2 e1 c d n addr err h',
      h = e3 :: e2 :: e1 :: EvReadFromUDP c d n addr (Some err) :: h' ->
      exists c' d' n' addr' err', e3 = EvReadFromUDP c' d' n' addr' err').

(** C2, the broadcaster: after a failed write the goroutine prints the
    error and then sleeps, which is how the next round of the loop begins. *)
Definition failed_write_continues (h : list event) : Prop :=
  (forall e1 c b err h',
      h = e1 :: EvWrite c b (Some err) :: h' ->
      e1 = EvPrintf ("Error: " +++ err))
  /\ (forall e2 e1 c b err h',
      h = e2 :: e1 :: EvWrite c b (Some err) :: h' ->
      e2 = EvSleep Second).

Definition is_startup_failure (e : event) : bool :=
  failed_resolve e || failed_dial e || failed_listen e.

(** C2: a [log.Fatalf] comes directly after a failed resolution, dial or
    bind, never after a write or a read. *)
Definition fatalf_only_at_startup (h : list event) : Prop :=
  forall line h',
    h = EvFatalf line :: h' ->
    exists e h'', h' = e :: h'' /\ is_startup_failure e = true.

(** C4: a write sends [payload], and the two calls before it are the sleep
    of one second and the "Broadcasting.." line; every sleep is one second. *)
Definition write_follows_sleep (payload : list byte) (h : list event) : Prop :=
  (forall c b res h',
      h = EvWrite c b res :: h' ->
      b = payload
      /\ exists h'', h' = EvPrintf "Broadcasting.." :: EvSleep Second :: h'')
  /\ (forall d h', h = EvSleep d :: h' -> d = Second).

(** ** The pattern of a peer name *)

Definition is_digit (c : ascii) : bool :=
  (48 <=? nat_of_ascii c)%nat && (nat_of_ascii c <=? 57)%nat.

Fixpoint all_digits (s : string) : bool :=
  match s with
  | EmptyString => true
  | String c s' => is_digit c && all_digits s'
  end.

(** [s] without its prefix [p], when it has that prefix. *)
Fixpoint strip_prefix (p s : string) : option string :=
  match p, s with
  | EmptyString, _ => Some s
  | String a p', String b s' => if Ascii.eqb a b then strip_prefix p' s' else None
  | String _ _, EmptyString => None
  end.

(** [peer-] followed by one or more decimal digits and nothing else. *)
Definition matches_peer_pattern (s : string) : bool :=
  match strip_prefix "peer-" s with
  | Some (String c rest) => all_digits (String c rest)
  | _ => false
  end.

(** The number a string of decimal digits writes. *)
Fixpoint decimal_value (s : string) : Z :=
  match s with
  | EmptyString => 0
  | String c s' =>
      (Z.of_nat (nat_of_ascii c) - 48) * 10 ^ Z.of_nat (String.length s')
      + decimal_value s'
  end.

(** The number behind [peer-], when the string has that prefix. *)
Definition peer_number (s : string) : option Z :=
  match strip_prefix "peer-" s with
  | Some digits => Some (decimal_value digits)
  | None => None
  end.

(** A value [rand.Int] can return: a non-negative 64-bit [int]. *)
Definition non_negative_int (r : Z) : Prop := 0 <= r < 2 ^ 63.

(** The first three calls of the process are the clock, the seed and
    [rand.Int]; there is no other call of [rand.Int]; and from line 26 on
    [name] is [peer-] and the decimal form of the number drawn then, which
    satisfies [Q] when every number the world hands out does. *)
Definition name_is_generated (Q : Z -> Prop) (s : State) : Prop :=
  match main s with
  | M25_Now => hist s = []
  | M25_Seed t => hist s = [(Main, EvNow t)]
  | M26_RandInt => exists t, hist s = [(Main, EvSeed t); (Main, EvNow t)]
  | _ =>
      exists t r later,
        hist s = later ++ [(Main, EvRandInt r); (Main, EvSeed t); (Main, EvNow t)]
        /\ happened is_rand_int later = false
        /\ name s = "peer-" +++ Itoa r
        /\ Q r
  end.

(** In a running process, a thread that is at a [log.Fatalf] has just made
    a start-up call that failed. *)
Definition fatalf_follows_failure (s : State) : Prop :=
  status s = Running ->
  (main_at_fatalf (main s) = true ->
   exists e h, calls_of Main (hist s) = e :: h /\ is_startup_failure e = true)
  /\ (goroutine_at_fatalf (goroutine s) = true ->
      exists e h, calls_of Goroutine (hist s) = e :: h /\ is_startup_failure e = true).

(** ** Addresses and sockets *)

(** The points of main at which [bCastAddr] has been assigned (line 31 has
    returned without error). *)
Definition bcast_resolved (pc : MainPC) : bool :=
  match pc with
  | M25_Now | M25_Seed _ | M26_RandInt | M27_Printf | M30_Printf | M31_Resolve
  | M33_Fatalf _ => false
  | _ => true
  end.

(** The points of main at which [listenAddr] has been assigned. *)
Definition listen_resolved (pc : MainPC) : bool :=
  match pc with
  | M64_Printf | M67_Printf | M68_Listen | M70_Fatalf _ | M85_Read
  | M86_Printf _ _ _ | M88_Printf _ | M92_Return => true
  | _ => false
  end.

(** The two address variables hold what the two resolutions returned: each
    is nil until its resolution has succeeded and afterwards the address that
    resolution returned; only main resolves, and only the two strings. *)
Definition addresses_follow_resolution (s : State) : Prop :=
  (if bcast_resolved (main s)
   then exists addr, bCastAddr s = Some addr
                     /\ In (Main, EvResolveUDPAddr broadcastAddress (inl addr)) (hist s)
   else bCastAddr s = None)
  /\ (if listen_resolved (main s)
      then exists addr, listenAddr s = Some addr
                        /\ In (Main, EvResolveUDPAddr listenAddress (inl addr)) (hist s)
      else listenAddr s = None)
  /\ (forall t ad res,
        In (t, EvResolveUDPAddr ad res) (hist s) ->
        t = Main
        /\ ((ad = broadcastAddress
             /\ forall addr, res = inl addr -> bCastAddr s = Some addr)
            \/ (ad = listenAddress
                /\ forall addr, res = inl addr -> listenAddr s = Some addr))).

(** The two sockets are the ones the dial and the bind returned, and every
    socket call uses them: inside its loop the goroutine holds the socket
    that [net.DialUDP] returned for [bCastAddr], and main the socket that
    [net.ListenUDP] returned for [listenAddr]; every write is made by the
    goroutine, on that socket, with the bytes of [name]; every read is made
    by main on its socket; the only dial is to [bCastAddr] and the only bind
    is to [listenAddr]. *)
Definition sockets_are_fixed (s : State) : Prop :=
  (in_broadcaster_loop (goroutine s) = true ->
   exists c, gconn s = Some c /\ RemoteAddr c = bCastAddr s
             /\ In (Goroutine, EvDialUDP (bCastAddr s) (inl c)) (hist s))
  /\ (in_listener_loop (main s) = true ->
      exists c, conn s = Some c /\ LocalAddr c = listenAddr s
                /\ In (Main, EvListenUDP (listenAddr s) (inl c)) (hist s))
  /\ (forall t c b res,
        In (t, EvWrite c b res) (hist s) ->
        t = Goroutine /\ b = list_byte_of_string (name s) /\ c = gconn s
        /\ in_broadcaster_loop (goroutine s) = true)
  /\ (forall t c d n addr err,
        In (t, EvReadFromUDP c d n addr err) (hist s) ->
        t = Main /\ c = conn s /\ in_listener_loop (main s) = true)
  /\ (forall t raddr res,
        In (t, EvDialUDP raddr res) (hist s) ->
        t = Goroutine /\ raddr = bCastAddr s)
  /\ (forall t laddr res,
        In (t, EvListenUDP laddr res) (hist s) ->
        t = Main /\ laddr = listenAddr s /\ after_listen (main s) = true).

(** ** Further properties of main *)

(** The points of main behind the "I am" line (line 27). *)
Definition announced (pc : MainPC) : bool :=
  match pc with
  | M25_Now | M25_Seed _ | M26_RandInt | M27_Printf => false
  | _ => true
  end.

(** From line 27 on, the history holds the line that announces [name]. *)
Definition name_is_announced (s : State) : Prop :=
  announced (main s) = true ->
  In (Main, EvPrintf ("I am " +++ name s)) (hist s).

(** A world that draws another number. *)
Definition other_world : Answer :=
  mkAnswer (now world) 8674665223082153551 (resolved world) (dialed world)
    (written world) (listened world) (dgram world) (from world) (read_err world).

(** A start-up and one round of the broadcaster in [other_world]. *)
Definition other_startup : Schedule :=
  repeat (Main, other_world) 8 ++ repeat (Goroutine, other_world) 5.

(** How many calls of the history satisfy [p]. *)
Definition count (p : event -> bool) (h : list (Thread * event)) : nat :=
  List.length (filter (fun te => p (snd te)) h).

Definition is_go (e : event) : bool :=
  match e with EvGo => true | _ => false end.

Definition is_dial (e : event) : bool :=
  match e with EvDialUDP _ _ => true | _ => false end.

Definition is_listen (e : event) : bool :=
  match e with EvListenUDP _ _ => true | _ => false end.

Definition is_resolve_of (address : string) (e : event) : bool :=
  match e with
  | EvResolveUDPAddr ad _ => String.eqb ad address
  | _ => false
  end.

Definition is_fatalf (e : event) : bool :=
  match e with EvFatalf _ => true | _ => false end.

(** The points of main behind the call of line 31, and of line 60. *)
Definition bcast_resolve_called (pc : MainPC) : bool :=
  match pc with
  | M25_Now | M25_Seed _ | M26_RandInt | M27_Printf | M30_Printf | M31_Resolve => false
  | _ => true
  end.

Definition listen_resolve_called (pc : MainPC) : bool :=
  match pc with
  | M62_Fatalf _ | M64_Printf | M67_Printf | M68_Listen | M70_Fatalf _ | M85_Read
  | M86_Printf _ _ _ | M88_Printf _ | M92_Return => true
  | _ => false
  end.

(** The points of the goroutine behind the call of line 41. *)
Definition dial_called (g : option GoPC) : bool :=
  match g with
  | None | Some G40_Printf | Some G41_Dial => false
  | _ => true
  end.

(** Each start-up call has been made once when its thread is behind it and
    not at all before. *)
Definition startup_calls_made_once (s : State) : Prop :=
  count is_go (hist s) = (if before_go (main s) then 0 else 1)%nat
  /\ count is_dial (hist s) = (if dial_called (goroutine s) then 1 else 0)%nat
  /\ count is_listen (hist s) = (if after_listen (main s) then 1 else 0)%nat
  /\ count (is_resolve_of broadcastAddress) (hist s)
     = (if bcast_resolve_called (main s) then 1 else 0)%nat
  /\ count (is_resolve_of listenAddress) (hist s)
     = (if listen_resolve_called (main s) then 1 else 0)%nat.

(** With [log.Fatalf] as one step: a running process has printed no fatal
    line; an exited one has status 1 and its newest call is its only fatal
    line. *)
Definition exit_is_fatalf (s : State) : Prop :=
  match status s with
  | Running => happened is_fatalf (hist s) = false
  | Exited c =>
      c = 1
      /\ exists t line h,
          hist s = (t, EvFatalf line) :: h /\ happened is_fatalf h = false
  end.

(** The line [log.Fatalf] prints for a start-up call that failed. *)
Definition fatal_line (e : event) : option string :=
  match e with
  | EvResolveUDPAddr ad (inr err) =>
      Some ("Error: Failed to resolve "
            +++ (if String.eqb ad broadcastAddress then "broadcast" else "listen")%string
            +++ " address: " +++ err)
  | EvDialUDP _ (inr err) => Some ("Error: Failed to dial: " +++ err)
  | EvListenUDP _ (inr err) => Some ("Error: Failed to listen: " +++ err)
  | _ => None
  end.

(** The line that announces a call to the network. *)
Definition announcement (e : event) : option string :=
  match e with
  | EvResolveUDPAddr ad _ =>
      Some (if String.eqb ad broadcastAddress
            then "Resolving broadcast address.."
            else "Resolving listen address..")%string
  | EvDialUDP _ _ => Some "Dialing broadcast address.."%string
  | EvListenUDP _ _ => Some "Beginning to listen.."%string
  | EvWrite _ _ _ => Some "Broadcasting.."%string
  | _ => None
  end.

(** How the start-up calls and the points of the two threads determine each
    other: a thread about to resolve, dial or bind has just printed the
    announcement; after a resolution main is at the "Resolved" line or at the
    fatal line of that resolution, and the address variable holds the
    result; after the bind main is in its loop or at the fatal line; and a
    thread of a running process that is at a fatal line has just made the
    call that failed. *)
Definition startup_follows_program (s : State) : Prop :=
  (main s = M31_Resolve ->
   exists h, calls_of Main (hist s) = EvPrintf "Resolving broadcast address.." :: h)
  /\ (main s = M60_Resolve ->
      exists h, calls_of Main (hist s) = EvPrintf "Resolving listen address.." :: h)
  /\ (main s = M68_Listen ->
      exists h, calls_of Main (hist s) = EvPrintf "Beginning to listen.." :: h)
  /\ (goroutine s = Some G41_Dial ->
      exists h, calls_of Goroutine (hist s)
                = EvPrintf "Dialing broadcast address.." :: h)
  /\ (forall ad res h,
        calls_of Main (hist s) = EvResolveUDPAddr ad res :: h ->
        (ad = broadcastAddress
         /\ main s = match res with inl _ => M35_Printf | inr e => M33_Fatalf e end
         /\ forall addr, res = inl addr -> bCastAddr s = Some addr)
        \/ (ad = listenAddress
            /\ main s = match res with inl _ => M64_Printf | inr e => M62_Fatalf e end
            /\ forall addr, res = inl addr -> listenAddr s = Some addr))
  /\ (forall laddr res h,
        calls_of Main (hist s) = EvListenUDP laddr res :: h ->
        main s = match res with inl _ => M85_Read | inr e => M70_Fatalf e end)
  /\ (status s = Running ->
      (forall err, main s = M33_Fatalf err ->
         exists h, calls_of Main (hist s)
                   = EvResolveUDPAddr broadcastAddress (inr err) :: h)
      /\ (forall err, main s = M62_Fatalf err ->
            exists h, calls_of Main (hist s)
                      = EvResolveUDPAddr listenAddress (inr err) :: h)
      /\ (forall err, main s = M70_Fatalf err ->
            exists laddr h, calls_of Main (hist s) = EvListenUDP laddr (inr err) :: h)
      /\ (forall err, goroutine s = Some (G43_Fatalf err) ->
            exists raddr h,
              calls_of Goroutine (hist s) = EvDialUDP raddr (inr err) :: h)).

(** A fatal line comes directly after the start-up call that failed and is
    the line of that call, with its error. *)
Definition fatalf_names_failure (h : list event) : Prop :=
  forall line h',
    h = EvFatalf line :: h' ->
    exists e h'', h' = e :: h'' /\ fatal_line e = Some line.

(** A call to the network comes directly after the line that announces it. *)
Definition call_is_announced (h : list event) : Prop :=
  forall e line h',
    h = e :: h' ->
    announcement e = Some line ->
    exists h'', h' = EvPrintf line :: h''.

(** The call after a resolution that succeeded prints the address it
    returned. *)
Definition resolution_is_logged (h : list event) : Prop :=
  forall e ad addr h',
    h = e :: EvResolveUDPAddr ad (inl addr) :: h' ->
    e = EvPrintf ("Resolved " +++ UDPAddr_String (Some addr) +++ ".").

(** The calls the source has in the body of the goroutine: it prints,
    dials, calls [log.Fatalf], sleeps and writes. *)
Definition goroutine_call (e : event) : bool :=
  match e with
  | EvPrintf _ | EvDialUDP _ _ | EvFatalf _ | EvSleep _ | EvWrite _ _ _ => true
  | _ => false
  end.

(** The calls main makes: everything but dial, sleep and write; it never
    panics, closes or returns. *)
Definition main_call (e : event) : bool :=
  match e with
  | EvNow _ | EvSeed _ | EvRandInt _ | EvPrintf _ | EvFatalf _
  | EvResolveUDPAddr _ _ | EvGo | EvListenUDP _ _ | EvReadFromUDP _ _ _ _ _ => true
  | _ => false
  end.

Definition call_of_thread (t : Thread) (e : event) : bool :=
  match t with
  | Main => main_call e
  | Goroutine => goroutine_call e
  end.
(** ** Runs *)

Lemma run_app (l1 l2 : Schedule) (s : State) :
  run (l1 ++ l2) s = run l2 (run l1 s).
Proof. unfold run. apply fold_left_app. Qed.

Lemma run_snoc (l : Schedule) (t : Thread) (a : Answer) (s : State) :
  run (l ++ [(t, a)]) s = step t a (run l s).
Proof. rewrite run_app. reflexivity. Qed.

Lemma run_cons (t : Thread) (a : Answer) (l : Schedule) (s : State) :
  run ((t, a) :: l) s = run l (step t a s).
Proof. reflexivity. Qed.

(** A property that holds at the start and that no step breaks holds after
    every run. *)
Lemma run_invariant (I : State -> Prop) :
  I init ->
  (forall t a s, I s -> I (step t a s)) ->
  forall sched, I (run sched init).
Proof.
  intros Hinit Hstep sched.
  induction sched as [|[t a] sched IH] using rev_ind.
  - exact Hinit.
  - rewrite run_snoc. apply Hstep, IH.
Qed.

(** The same, for the runs whose scheduler choices and answers all satisfy [Q]. *)
Lemma run_invariant_on (Q : Thread * Answer -> Prop) (I : State -> Prop) :
  I init ->
  (forall t a s, Q (t, a) -> I s -> I (step t a s)) ->
  forall sched, Forall Q sched -> I (run sched init).
Proof.
  intros Hinit Hstep sched.
  induction sched as [|[t a] sched IH] using rev_ind; intros HQ.
  - exact Hinit.
  - apply Forall_app in HQ. destruct HQ as [HQ Hta].
    rewrite run_snoc. apply Hstep.
    + now inversion Hta.
    + now apply IH.
Qed.

Lemma exited_step (t : Thread) (a : Answer) (s : State) (c : Z) :
  status s = Exited c -> step t a s = s.
Proof. intros H. unfold step. now rewrite H. Qed.

Lemma exited_run (more : Schedule) (s : State) (c : Z) :
  status s = Exited c -> run more s = s.
Proof.
  revert s. induction more as [|[t a] more IH]; intros s H.
  - reflexivity.
  - rewrite run_cons, (exited_step t a s c H). now apply IH.
Qed.

(** Unfolds one step into the calls of the source, one goal per program point
    and per outcome of the call. *)
Ltac state_simpl :=
  cbn [status main goroutine name bCastAddr gconn listenAddr conn deferred buf hist
       emit goto go_goto exit set_name set_bCastAddr set_gconn set_listenAddr
       set_conn set_deferred set_buf fatalf fst snd] in *.

Ltac step_cases t a s :=
  unfold step;
  let Est := fresh "Est" in
  let Epc := fresh "Epc" in
  destruct (status s) eqn:Est;
  [ destruct t;
    [ unfold main_step, recvfrom, ReadFromUDP; destruct (main s) eqn:Epc
    | destruct (goroutine s) as [[]|] eqn:Epc; [unfold goroutine_step ..|] ]
  | ];
  repeat match goal with
         | |- context [match resolved a with _ => _ end] => destruct (resolved a)
         | |- context [match listened a with _ => _ end] => destruct (listened a)
         | |- context [match dialed a with _ => _ end] => destruct (dialed a)
         | |- context [match written a with _ => _ end] => destruct (written a)
         | |- context [match read_err a with _ => _ end] => destruct (read_err a)
         | |- context [match deferred s with _ => _ end] => destruct (deferred s) eqn:?
         | |- context [match slice ?b ?lo ?hi with _ => _ end] =>
             destruct (slice b lo hi) eqn:?
         end;
  state_simpl;
  try rewrite Epc in *.

(** ** The shared invariant *)

Lemma read_count_fits (d b : list byte) :
  List.length b = 1024%nat ->
  0 <= Z.of_nat (Nat.min (List.length d) (List.length b)) <= 1024.
Proof. intros H. rewrite H. lia. Qed.

Lemma read_keeps_length (d b : list byte) :
  List.length (firstn (Nat.min (List.length d) (List.length b)) d
               ++ skipn (Nat.min (List.length d) (List.length b)) b)
  = List.length b.
Proof. rewrite length_app, length_firstn, length_skipn. lia. Qed.

Lemma slice_in_bounds (b : list byte) (n : Z) :
  0 <= n <= Z.of_nat (List.length b) ->
  slice b 0 n = Some (firstn (Z.to_nat n) b).
Proof.
  intros H. unfold slice.
  replace (0 <=? 0) with true by reflexivity.
  destruct (Z.leb_spec 0 n); [|lia].
  destruct (Z.leb_spec n (Z.of_nat (List.length b))); [|lia].
  cbn [andb]. now rewrite Z.sub_0_r.
Qed.

Lemma reachable_wf (sched : Schedule) : wf (run sched init).
Proof.
  apply run_invariant.
  - unfold wf, init; cbn. repeat split; try discriminate; try lia.
  - intros t a s (Hgo & Hret & Hbuf & Hn & Hex).
    unfold wf. step_cases t a s.
    all: rewrite ?Epc in *;
      cbn [before_go in_listener_loop main_at_fatalf goroutine_at_fatalf orb
           calls_of Thread_eqb] in *.
    all: try match goal with
             | |- context [match ?e with Some _ => _ | None => _ end] => destruct e
             end;
      cbn [before_go in_listener_loop main_at_fatalf goroutine_at_fatalf orb] in *.
    all: try (destruct (before_go (main s)); [destruct Hgo; congruence|]).
    all: try (split; [|split; [|split; [|split]]]; intros; eauto;
              try tauto; try discriminate; try congruence;
              try (apply Hex; congruence);
              try (split; [congruence | first [reflexivity | now rewrite orb_true_r]]);
              fail).
    + (* line 85, a failed read: the count is 0, the buffer as before *)
      specialize (Hbuf eq_refl).
      split; [|split; [|split; [|split]]]; intros; try tauto; try discriminate;
        try exact Hbuf.
      * injection H as <- _ _. lia.
      * apply Hex; congruence.
    + (* line 85: the count and the buffer after a read *)
      specialize (Hbuf eq_refl).
      split; [|split; [|split; [|split]]]; intros; try tauto; try discriminate.
      * now rewrite read_keeps_length.
      * injection H as <- _ _. rewrite Hbuf. lia.
      * apply Hex; congruence.
    + (* line 86: the slice expression cannot panic *)
      specialize (Hbuf eq_refl). specialize (Hn _ _ _ eq_refl).
      rewrite slice_in_bounds in Heqo by (rewrite Hbuf; lia). discriminate.
Qed.

(** The same as [run_invariant], with the state before the step known to be
    the end of a run. *)
Lemma run_invariant_reach (I : State -> Prop) :
  I init ->
  (forall sched t a, I (run sched init) -> I (step t a (run sched init))) ->
  forall sched, I (run sched init).
Proof.
  intros Hinit Hstep sched.
  induction sched as [|[t a] sched IH] using rev_ind.
  - exact Hinit.
  - rewrite run_snoc. apply Hstep, IH.
Qed.

(** A step adds at most one call to the history, made by the thread that
    was scheduled. *)
Lemma step_emits (t : Thread) (a : Answer) (s : State) :
  hist (step t a s) = hist s \/ exists e, hist (step t a s) = (t, e) :: hist s.
Proof. step_cases t a s; eauto. Qed.

Lemma calls_of_step (t0 t : Thread) (a : Answer) (s : State) :
  calls_of t0 (hist (step t a s)) = calls_of t0 (hist s)
  \/ (t = t0 /\ exists e, hist (step t a s) = (t0, e) :: hist s).
Proof.
  destruct (step_emits t a s) as [H | [e H]].
  - left. now rewrite H.
  - destruct t0, t; rewrite H; cbn [calls_of Thread_eqb]; eauto.
Qed.

Lemma happened_step (p : event -> bool) (t : Thread) (a : Answer) (s : State) :
  happened p (hist s) = true -> happened p (hist (step t a s)) = true.
Proof.
  intros H. destruct (step_emits t a s) as [E | [e E]]; rewrite E; [easy|].
  unfold happened in *. cbn [existsb]. rewrite H. apply orb_true_r.
Qed.

Lemma happened_run (p : event -> bool) (more : Schedule) (s : State) :
  happened p (hist s) = true -> happened p (hist (run more s)) = true.
Proof.
  revert s. induction more as [|[t a] more IH]; intros s H; [easy|].
  rewrite run_cons. now apply IH, happened_step.
Qed.

Lemma read_front (d b : list byte) :
  let n := Nat.min (List.length d) (List.length b) in
  firstn n (firstn n d ++ skipn n b) = firstn n d.
Proof.
  intros n.
  assert (Hl : List.length (firstn n d) = n) by (rewrite length_firstn; lia).
  rewrite firstn_app, Hl, Nat.sub_diag, firstn_O, app_nil_r.
  rewrite firstn_firstn. f_equal. lia.
Qed.

Lemma reachable_main_follows_history (sched : Schedule) :
  main_follows_history (run sched init).
Proof.
  revert sched. apply run_invariant_reach.
  - unfold main_follows_history; cbn. repeat split; intros; discriminate.
  - intros sched t a. pose proof (reachable_wf sched) as Hwf.
    revert Hwf. generalize (run sched init) as s.
    intros s (_ & _ & Hbuf & _) (L1 & L2 & L3).
    unfold main_follows_history. step_cases t a s.
    all: cbn [calls_of Thread_eqb].
    all: try (exact (conj L1 (conj L2 L3))).
    all: split; [|split]; intros;
      match goal with
      | H : _ :: _ = _ |- _ => inversion H; subst; clear H
      end;
      try match goal with
          | H : calls_of Main (hist _) = EvReadFromUDP _ _ _ _ _ :: _ |- _ =>
              destruct (L1 _ _ _ _ _ _ H) as (? & ? & ? & ?)
          end;
      try match goal with
          | H : calls_of Main (hist _) = EvPrintf _ :: EvReadFromUDP _ _ _ _ _ :: _ |- _ =>
              pose proof (L2 _ _ _ _ _ _ _ H)
          end;
      try discriminate; try congruence;
      try match goal with
          | H : _ = match ?e with Some _ => _ | None => _ end |- _ =>
              destruct e; discriminate
          end.
    + (* line 85, a failed read *)
      repeat split.
    + (* line 85 *)
      repeat split.
      * now rewrite (Hbuf eq_refl).
      * rewrite Nat2Z.id. apply read_front.
    + (* line 86 *)
      now injection H as _ _ ->.
Qed.

Lemma reachable_goroutine_follows_history (sched : Schedule) :
  goroutine_follows_history (run sched init).
Proof.
  revert sched. apply run_invariant_reach.
  - unfold goroutine_follows_history; cbn. repeat split; intros; discriminate.
  - intros sched t a. pose proof (reachable_wf sched) as Hwf.
    revert Hwf. generalize (run sched init) as s.
    intros s (Hgo & _) (G1 & G2 & G3 & G4 & G5).
    unfold goroutine_follows_history. step_cases t a s.
    all: cbn [calls_of Thread_eqb].
    all: try (exact (conj G1 (conj G2 (conj G3 (conj G4 G5))))).
    all: try (rewrite Epc; exact (conj G1 (conj G2 (conj G3 (conj G4 G5))))).
    all: split; [|split; [|split; [|split]]]; intros;
      try match goal with
          | H : _ :: _ = _ |- _ => inversion H; subst; clear H
          end;
      try match goal with
          | H : calls_of Goroutine (hist _) = EvWrite _ _ _ :: _ |- _ =>
              pose proof (G2 _ _ _ _ H)
          end;
      try discriminate; try congruence; eauto.
    1-3: cbn in Hgo; destruct Hgo; congruence.
    destruct (G4 eq_refl) as [h' ->]. eauto.
Qed.

Lemma addresses_differ : String.eqb listenAddress broadcastAddress = false.
Proof. reflexivity. Qed.

Lemma reachable_startup_matches_history (sched : Schedule) :
  startup_matches_history (run sched init).
Proof.
  revert sched. apply run_invariant_reach.
  - unfold startup_matches_history; cbn. repeat split; intros; discriminate.
  - intros sched t a. pose proof (reachable_wf sched) as Hwf.
    revert Hwf. generalize (run sched init) as s.
    intros s (Hgo & Hret & Hbuf & Hn & _)
      (H1 & H2 & H3 & H4 & H5 & H6 & H7 & H8 & H9 & H10 & H11 & H12).
    unfold startup_matches_history, happened in *. step_cases t a s.
    all: cbn [existsb snd failed_resolve_of failed_resolve failed_listen listen_ok
              failed_dial dial_ok is_socket_op is_listener_op is_close_or_return
              is_panic at_line_33 at_line_62 at_line_70 in_listener_loop
              goroutine_at_fatalf in_broadcaster_loop before_go after_listen orb] in *.
    all: rewrite ?addresses_differ, ?String.eqb_refl; cbn [orb].
    all: try congruence.
    all: try match goal with
             | |- context [match ?e with Some _ => _ | None => _ end] => destruct e
             end;
      cbn [at_line_33 at_line_62 at_line_70 in_listener_loop after_listen before_go orb].
    all: try (repeat split; intros; try discriminate; try congruence; auto; fail).
    all: try (destruct (before_go (main s)); [destruct Hgo; congruence|]).
    all: try (rewrite ?H6, ?H7;
              repeat split; intros; try discriminate; try congruence; auto; fail).
    + (* line 38: the goroutine starts at line 40 *)
      destruct Hgo as [Hg _]. rewrite Hg in H6, H7. cbn in H6, H7.
      repeat split; intros; try discriminate; auto.
    + (* line 86: the slice expression cannot panic *)
      exfalso. specialize (Hbuf eq_refl). specialize (Hn _ _ _ eq_refl).
      rewrite slice_in_bounds in Heqo by (rewrite Hbuf; lia). discriminate.
Qed.

(** ** Termination through [log.Fatalf] *)

(** A step of one thread leaves the other thread where it is (the [go]
    statement apart, which starts the goroutine). *)
Lemma goroutine_step_keeps_main (a : Answer) (s : State) :
  main (step Goroutine a s) = main s.
Proof.
  unfold step. destruct (status s); [|reflexivity].
  destruct (goroutine s) as [pc|]; [|reflexivity].
  destruct pc; cbn [goroutine_step]; try reflexivity.
  - now destruct (dialed a).
Qed.

Lemma main_step_keeps_goroutine (a : Answer) (s : State) :
  goroutine s <> None -> wf s -> goroutine (step Main a s) = goroutine s.
Proof.
  intros Hg (Hgo & _). unfold step. destruct (status s); [|reflexivity].
  unfold main_step, recvfrom, ReadFromUDP.
  destruct (main s); cbn [before_go] in Hgo; try (now destruct Hgo);
    try reflexivity.
  - now destruct (resolved a).
  - now destruct (listened a).
  - now destruct (read_err a).
  - now destruct (slice (buf s) 0 n).
  - now destruct (deferred s).
Qed.

(** A thread that is at a [log.Fatalf] ends the process, with status 1, as
    soon as the scheduler lets it move, whatever the other thread does in
    between. *)
Lemma fatalf_exits (t : Thread) (more sched : Schedule) :
  match t with
  | Main => main_at_fatalf (main (run sched init))
  | Goroutine => goroutine_at_fatalf (goroutine (run sched init))
  end = true ->
  In t (map fst more) ->
  status (run more (run sched init)) = Exited 1.
Proof.
  revert sched. induction more as [|[u a] more IH]; intros sched Hpc Hin.
  - destruct Hin.
  - pose proof (reachable_wf sched) as Hwf.
    rewrite run_cons.
    destruct (status (run sched init)) as [|c] eqn:Est.
    + destruct t, u; cbn [map fst In] in Hin.
      * (* main is scheduled at its Fatalf *)
        clear IH Hin. erewrite exited_run; revert Hpc Est;
          generalize (run sched init) as s; intros s Hpc Est;
          unfold step; rewrite Est; unfold main_step;
          destruct (main s); try discriminate; reflexivity.
      * rewrite <- run_snoc. apply IH.
        -- rewrite run_snoc, goroutine_step_keeps_main. exact Hpc.
        -- destruct Hin as [Hin | Hin]; [discriminate | exact Hin].
      * rewrite <- run_snoc. apply IH.
        -- rewrite run_snoc, main_step_keeps_goroutine; trivial.
           destruct (goroutine (run sched init)); [discriminate|discriminate].
        -- destruct Hin as [Hin | Hin]; [discriminate | exact Hin].
      * clear IH Hin. erewrite exited_run; revert Hpc Est;
          generalize (run sched init) as s; intros s Hpc Est;
          unfold step; rewrite Est;
          destruct (goroutine s) as [[]|]; try discriminate; reflexivity.
    + destruct Hwf as (_ & _ & _ & _ & Hex).
      destruct (Hex c Est) as [-> _].
      rewrite (exited_step u a _ 1 Est). now rewrite (exited_run more _ 1 Est).
Qed.

(** ** C1: a failed resolution *)

(** C1, as the claim states it, at the run [listen_unresolved]: the
    goroutine, started at line 38, has dialed and written by the time the
    resolution of the listen address fails at line 60.  A resolution failed
    and the process terminated on it, yet socket calls had been made. *)
Lemma C1_socket_op_before_failed_listen_resolution :
  failed_resolution_after_socket_op (run listen_unresolved init).
Proof. repeat split. Qed.

(** C1, amended: when the resolution of the broadcast address fails, no
    socket call of any kind has been or will have been made (the goroutine
    does not even exist); when the resolution of the listen address fails,
    the listener has neither bound nor read; and in both cases the process
    is terminated, with status 1, by the next call main makes. *)
Theorem C1_failed_resolution_terminates (sched : Schedule) :
  let s := run sched init in
  (happened (failed_resolve_of broadcastAddress) (hist s) = true ->
   happened is_socket_op (hist s) = false /\ goroutine s = None)
  /\ (happened (failed_resolve_of listenAddress) (hist s) = true ->
      happened is_listener_op (hist s) = false)
  /\ (happened failed_resolve (hist s) = true ->
      forall more : Schedule,
        In Main (map fst more) -> status (run more s) = Exited 1).
Proof.
  intros s. subst s.
  pose proof (reachable_wf sched) as (Hgo & _).
  pose proof (reachable_startup_matches_history sched)
    as (H1 & H2 & H3 & _ & _ & _ & _ & H8 & H9 & _).
  split; [|split].
  - intros Hf. rewrite Hf in H1.
    destruct (main (run sched init)); try discriminate.
    cbn in Hgo. split; [now apply H8 | apply Hgo].
  - intros Hf. rewrite Hf in H2. apply H9.
    destruct (main (run sched init)); try discriminate. reflexivity.
  - intros Hf more Hin. apply (fatalf_exits Main); [|exact Hin].
    rewrite Hf in H3. destruct (main (run sched init)); try discriminate;
      reflexivity.
Qed.

(** C1 applied to two runs: the broadcast address does not resolve, and the
    listen address does not resolve. *)
Lemma C1_failed_resolution_terminates_witness :
  (happened is_socket_op (hist (run broadcast_unresolved init)) = false
   /\ goroutine (run broadcast_unresolved init) = None)
  /\ status (run [(Main, world)] (run broadcast_unresolved init)) = Exited 1
  /\ happened is_listener_op (hist (run listen_unresolved init)) = false.
Proof.
  split; [|split].
  - apply (proj1 (C1_failed_resolution_terminates broadcast_unresolved)).
    reflexivity.
  - apply (proj2 (proj2 (C1_failed_resolution_terminates broadcast_unresolved))).
    + reflexivity.
    + left. reflexivity.
  - apply (proj1 (proj2 (C1_failed_resolution_terminates listen_unresolved))).
    reflexivity.
Defined.

(** ** C7: a failed dial or bind *)

(** C7: once the dial of the goroutine, or the bind of main, has failed, the
    whole process has exited with status 1 as soon as that thread has been
    scheduled again, and from then on neither thread makes another call. *)
Theorem C7_startup_failure_exits_process (sched more : Schedule) (t : Thread) :
  let s := run sched init in
  happened (startup_failure t) (hist s) = true ->
  In t (map fst more) ->
  let s' := run more s in
  status s' = Exited 1 /\ (forall u a, step u a s' = s').
Proof.
  intros s Hf Hin s'. subst s s'.
  pose proof (reachable_startup_matches_history sched)
    as (_ & _ & _ & H4 & _ & H6 & _).
  assert (Hex : status (run more (run sched init)) = Exited 1).
  { apply (fatalf_exits t); [|exact Hin].
    destruct t; cbn [startup_failure] in Hf.
    - rewrite Hf in H4. destruct (main (run sched init)); try discriminate;
        reflexivity.
    - now rewrite Hf in H6. }
  split; [exact Hex|].
  intros u a. now apply exited_step with (c := 1).
Qed.

(** C7 applied to a run in which the dial fails and to one in which the
    bind fails. *)
Lemma C7_startup_failure_exits_process_witness :
  status (run [(Main, world); (Goroutine, world)] (run dial_fails init)) = Exited 1
  /\ status (run [(Goroutine, world); (Main, world)] (run bind_fails init)) = Exited 1.
Proof.
  split.
  - apply (C7_startup_failure_exits_process dial_fails
             [(Main, world); (Goroutine, world)] Goroutine).
    + reflexivity.
    + right. left. reflexivity.
  - apply (C7_startup_failure_exits_process bind_fails
             [(Goroutine, world); (Main, world)] Main).
    + reflexivity.
    + right. left. reflexivity.
Defined.

(** ** C9: no exit after a successful start-up *)

(** C9: the process never exits with a status other than 1, main never
    reaches the end of the function and nothing is ever closed; and once the
    dial and the bind have succeeded, whatever the scheduler and the world do
    next, the process is running, both threads are inside their loops and
    the deferred close of the listening socket is still pending. *)
Theorem C9_no_exit_after_startup (sched : Schedule) :
  let s := run sched init in
  (forall c, status s = Exited c -> c = 1)
  /\ main s <> M92_Return
  /\ happened is_close_or_return (hist s) = false
  /\ (happened dial_ok (hist s) = true ->
      happened listen_ok (hist s) = true ->
      forall more : Schedule,
        let s' := run more s in
        status s' = Running
        /\ in_listener_loop (main s') = true
        /\ in_broadcaster_loop (goroutine s') = true
        /\ deferred s' = [conn s']).
Proof.
  intros s. subst s.
  pose proof (reachable_wf sched) as (_ & Hret & _ & _ & Hex).
  pose proof (reachable_startup_matches_history sched)
    as (_ & _ & _ & _ & _ & _ & _ & _ & _ & H10 & _).
  split; [|split; [|split]]; trivial.
  - intros c Hc. now destruct (Hex c Hc).
  - intros Hd Hl more s'. subst s'.
    apply (happened_run _ more) in Hd, Hl.
    rewrite <- run_app in *.
    pose proof (reachable_wf (sched ++ more)) as (_ & _ & _ & _ & Hex').
    pose proof (reachable_startup_matches_history (sched ++ more))
      as (_ & _ & _ & _ & H5 & _ & H7 & _ & _ & _ & _ & H12).
    rewrite Hl in H5. rewrite Hd in H7. rewrite <- H5 in H12.
    repeat split; auto.
    destruct (status (run (sched ++ more) init)) as [|c] eqn:Est; [reflexivity|].
    destruct (Hex' c eq_refl) as [_ Hpc]. exfalso.
    destruct (main (run (sched ++ more) init)); try discriminate;
      destruct (goroutine (run (sched ++ more) init)) as [[]|]; discriminate.
Qed.

(** C9 applied to a start-up followed by fifty calls of each thread, among
    them failed writes, failed reads and an oversized datagram. *)
Lemma C9_no_exit_after_startup_witness :
  status (run (repeat (Main, world_unread) 25
               ++ repeat (Goroutine, world_unwritten) 50
               ++ repeat (Main, world_oversized) 25)
            (run startup init)) = Running.
Proof.
  apply (proj2 (proj2 (proj2 (C9_no_exit_after_startup startup))));
    reflexivity.
Defined.

(** ** Properties of every moment of a history *)

Lemma Thread_eqb_refl (t : Thread) : Thread_eqb t t = true.
Proof. now destruct t. Qed.

(** [P] holds at every moment of the calls of thread [t0] when it holds of
    no call at all and every call [t0] makes at the end of a run keeps it. *)
Lemma always_calls (t0 : Thread) (P : list event -> Prop) :
  P [] ->
  (forall sched a e,
      hist (step t0 a (run sched init)) = (t0, e) :: hist (run sched init) ->
      P (e :: calls_of t0 (hist (run sched init)))) ->
  forall sched, always P (calls_of t0 (hist (run sched init))).
Proof.
  intros Hnil Hstep sched.
  induction sched as [|[t a] sched IH] using rev_ind.
  - split; [exact Hnil | exact I].
  - rewrite run_snoc.
    destruct (calls_of_step t0 t a (run sched init)) as [E | [-> [e E]]].
    + now rewrite E.
    + rewrite E. cbn [calls_of]. rewrite Thread_eqb_refl.
      split; [now apply (Hstep sched a) | exact IH].
Qed.

(** What the next call of main is, from where main is. *)
Lemma main_call_at (a : Answer) (s : State) (e : event) :
  status s = Running ->
  hist (step Main a s) = (Main, e) :: hist s ->
  match main s with
  | M85_Read =>
      match read_err a with
      | Some err => e = EvReadFromUDP (conn s) [] 0 None (Some err)
      | None =>
          e = EvReadFromUDP (conn s) (dgram a)
                (Z.of_nat (Nat.min (List.length (dgram a)) (List.length (buf s))))
                (from a) None
      end
  | M86_Printf n addr err =>
      match slice (buf s) 0 n with
      | Some payload => e = EvPrintf (received_line payload addr)
      | None => e = EvPanic "slice bounds out of range"
      end
  | M88_Printf err => e = EvPrintf ("Error: " +++ err)
  | M33_Fatalf _ | M62_Fatalf _ | M70_Fatalf _ => exists line, e = EvFatalf line
  | M31_Resolve | M60_Resolve => exists ad, e = EvResolveUDPAddr ad (resolved a)
  | M68_Listen => exists laddr res, e = EvListenUDP laddr res
  | M25_Now => e = EvNow (now a)
  | M25_Seed t => e = EvSeed t
  | M26_RandInt => e = EvRandInt (rand_int a)
  | M38_Go => e = EvGo
  | M92_Return => is_close_or_return e = true
  | _ => exists line, e = EvPrintf line
  end.
Proof.
  intros Est. unfold step. rewrite Est. unfold main_step, recvfrom, ReadFromUDP.
  destruct (main s); state_simpl;
    repeat match goal with
           | |- context [match resolved a with _ => _ end] => destruct (resolved a)
           | |- context [match read_err a with _ => _ end] => destruct (read_err a)
           | |- context [match listened a with _ => _ end] => destruct (listened a)
           | |- context [match deferred s with _ => _ end] => destruct (deferred s)
           | |- context [match slice ?b ?lo ?hi with _ => _ end] =>
               destruct (slice b lo hi)
           end;
    state_simpl; intros H; injection H as <-; eauto.
Qed.

(** What the next call of the goroutine is, from where it is. *)
Lemma goroutine_call_at (a : Answer) (s : State) (e : event) :
  status s = Running ->
  hist (step Goroutine a s) = (Goroutine, e) :: hist s ->
  match goroutine s with
  | None => False
  | Some G40_Printf => e = EvPrintf "Dialing broadcast address.."
  | Some G41_Dial => exists res, e = EvDialUDP (bCastAddr s) res
  | Some (G43_Fatalf _) => exists line, e = EvFatalf line
  | Some G47_Sleep => e = EvSleep Second
  | Some G48_Printf => e = EvPrintf "Broadcasting.."
  | Some G49_Write =>
      e = EvWrite (gconn s) (list_byte_of_string (name s)) (written a)
  | Some (G50_Printf err) => e = EvPrintf ("Error: " +++ err)
  end.
Proof.
  intros Est. unfold step. rewrite Est.
  destruct (goroutine s) as [[]|]; cbn [goroutine_step];
    try destruct (dialed a); state_simpl; intros H;
    try (injection H as <-; eauto).
  all: apply (f_equal (@List.length _)) in H; cbn in H; lia.
Qed.

(** A thread of an exited process makes no call. *)
Lemma call_means_running (t : Thread) (a : Answer) (s : State) (e : event) :
  hist (step t a s) = (t, e) :: hist s -> status s = Running.
Proof.
  intros H. destruct (status s) as [|c] eqn:Est; [reflexivity|].
  rewrite (exited_step t a s c Est) in H.
  apply (f_equal (@List.length _)) in H. cbn in H. lia.
Qed.

(** ** The listener loop *)

(** When the newest call of main is a read and the process is running, the
    next call of main prints the "Received" line of that read, whatever the
    read returned, and main goes on to the error line or to the next read. *)
Lemma main_step_after_read (sched : Schedule) (a : Answer)
    c d n addr err h' :
  calls_of Main (hist (run sched init)) = EvReadFromUDP c d n addr err :: h' ->
  status (run sched init) = Running ->
  step Main a (run sched init)
  = (run sched init)
      |> emit Main (EvPrintf (received_line (firstn (Z.to_nat n) d) addr))
      |> goto (match err with Some e => M88_Printf e | None => M85_Read end).
Proof.
  pose proof (reachable_wf sched) as (_ & _ & Hbuf & Hn & _).
  pose proof (reachable_main_follows_history sched) as (L1 & _).
  revert Hbuf Hn L1. generalize (run sched init) as s.
  intros s Hbuf Hn L1 Hc Est.
  destruct (L1 _ _ _ _ _ _ Hc) as (Hpc & _ & _ & Hfront).
  unfold step. rewrite Est. unfold main_step. rewrite Hpc.
  rewrite Hpc in Hbuf, Hn.
  rewrite slice_in_bounds
    by (rewrite (Hbuf eq_refl); apply (Hn _ _ _ eq_refl)).
  now rewrite Hfront.
Qed.

(** One line after a failed read, the next call of main prints the error
    and main is back at the read. *)
Lemma main_step_after_failed_read (sched : Schedule) (a : Answer)
    l c d n addr err h' :
  calls_of Main (hist (run sched init))
  = EvPrintf l :: EvReadFromUDP c d n addr (Some err) :: h' ->
  status (run sched init) = Running ->
  step Main a (run sched init)
  = (run sched init) |> emit Main (EvPrintf ("Error: " +++ err)) |> goto M85_Read.
Proof.
  pose proof (reachable_main_follows_history sched) as (_ & L2 & _).
  revert L2. generalize (run sched init) as s. intros s L2 Hc Est.
  unfold step. rewrite Est. unfold main_step.
  now rewrite (L2 _ _ _ _ _ _ _ Hc).
Qed.

Lemma reads_are_logged (sched : Schedule) :
  always read_is_logged (calls_of Main (hist (run sched init))).
Proof.
  revert sched. apply always_calls.
  - intros e c d n addr err h' H. discriminate.
  - intros sched a e Hstep e0 c d n addr err h' H.
    injection H as <- Hc.
    rewrite (main_step_after_read sched a _ _ _ _ _ _ Hc) in Hstep
      by (eapply call_means_running; eassumption).
    now injection Hstep as <-.
Qed.

(** ** [strconv.Itoa] *)

Lemma digit_code (d : Z) :
  0 <= d < 10 -> nat_of_ascii (digit d) = (48 + Z.to_nat d)%nat.
Proof.
  intros H. unfold digit. apply nat_ascii_embedding. lia.
Qed.

Lemma digit_is_digit (d : Z) : 0 <= d < 10 -> is_digit (digit d) = true.
Proof.
  intros H. unfold is_digit. rewrite (digit_code d H).
  apply andb_true_intro. split; apply Nat.leb_le; lia.
Qed.

Lemma formatBits_digits (fuel : nat) (u : Z) (acc : string) :
  0 <= u -> all_digits acc = true -> all_digits (formatBits fuel u acc) = true.
Proof.
  revert u acc. induction fuel as [|fuel IH]; intros u acc Hu Hacc; [exact Hacc|].
  cbn [formatBits].
  assert (Hd : all_digits (String (digit (u mod 10)) acc) = true).
  { cbn [all_digits]. rewrite Hacc, digit_is_digit; [reflexivity|].
    apply Z.mod_pos_bound. lia. }
  destruct (u / 10 =? 0); [exact Hd|].
  apply IH; [apply Z.div_pos; lia | exact Hd].
Qed.

Lemma formatBits_nonempty (fuel : nat) (u : Z) (acc : string) :
  exists c rest, formatBits (S fuel) u acc = String c rest.
Proof.
  revert u acc. induction fuel as [|fuel IH]; intros u acc.
  - cbn [formatBits]. destruct (u / 10 =? 0); eauto.
  - change (formatBits (S (S fuel)) u acc)
      with (let acc' := String (digit (u mod 10)) acc in
            if u / 10 =? 0 then acc' else formatBits (S fuel) (u / 10) acc').
    cbv zeta. destruct (u / 10 =? 0); eauto.
Qed.

Lemma formatBits_length (fuel : nat) (u : Z) (acc : string) :
  (String.length (formatBits fuel u acc) <= fuel + String.length acc)%nat.
Proof.
  revert u acc. induction fuel as [|fuel IH]; intros u acc; [cbn; lia|].
  cbn [formatBits]. destruct (u / 10 =? 0).
  - cbn [String.length]. lia.
  - specialize (IH (u / 10) (String (digit (u mod 10)) acc)).
    cbn [String.length] in IH. lia.
Qed.

Lemma formatBits_value (fuel : nat) (u : Z) (acc : string) :
  0 <= u < 10 ^ Z.of_nat fuel ->
  decimal_value (formatBits fuel u acc)
  = u * 10 ^ Z.of_nat (String.length acc) + decimal_value acc.
Proof.
  revert u acc. induction fuel as [|fuel IH]; intros u acc Hu.
  - cbn in Hu. assert (u = 0) by lia. subst u. cbn [formatBits]. lia.
  - cbn [formatBits].
    assert (Hm : 0 <= u mod 10 < 10) by (apply Z.mod_pos_bound; lia).
    assert (Hv : decimal_value (String (digit (u mod 10)) acc)
                 = u mod 10 * 10 ^ Z.of_nat (String.length acc) + decimal_value acc).
    { cbn [decimal_value]. rewrite (digit_code _ Hm). f_equal. f_equal. lia. }
    destruct (Z.eqb_spec (u / 10) 0) as [E | E].
    + rewrite Hv. f_equal. f_equal.
      pose proof (Z.div_mod u 10 ltac:(lia)). lia.
    + rewrite IH.
      * rewrite Hv. cbn [String.length]. rewrite Nat2Z.inj_succ, Z.pow_succ_r by lia.
        pose proof (Z.div_mod u 10 ltac:(lia)) as Hdm.
        set (p := 10 ^ Z.of_nat (String.length acc)) in *.
        rewrite Hdm at 3. ring.
      * split; [apply Z.div_pos; lia|].
        apply Z.div_lt_upper_bound; [lia|].
        rewrite Nat2Z.inj_succ, Z.pow_succ_r in Hu by lia. lia.
Qed.

Lemma Itoa_length (i : Z) : (String.length (Itoa i) <= 21)%nat.
Proof.
  unfold Itoa. destruct (i <? 0); cbn [String.length].
  - pose proof (formatBits_length 20 (- i) ""). cbn [String.length] in *. lia.
  - pose proof (formatBits_length 20 i ""). cbn [String.length] in *. lia.
Qed.

Lemma strip_peer (s : string) : strip_prefix "peer-" ("peer-" +++ s) = Some s.
Proof. reflexivity. Qed.

(** The name made of a non-negative [int] matches the pattern, and the
    number behind [peer-] is that [int]. *)
Lemma peer_name_pattern (r : Z) :
  non_negative_int r ->
  matches_peer_pattern ("peer-" +++ Itoa r) = true
  /\ peer_number ("peer-" +++ Itoa r) = Some r.
Proof.
  intros [H0 H63]. unfold matches_peer_pattern, peer_number.
  rewrite strip_peer. unfold Itoa.
  destruct (Z.ltb_spec r 0) as [Hneg | _]; [lia|].
  split.
  - destruct (formatBits_nonempty 19 r "") as (c & rest & E).
    rewrite E, <- E. now apply formatBits_digits.
  - rewrite formatBits_value.
    + cbn [String.length decimal_value]. f_equal. lia.
    + split; [exact H0|]. eapply Z.lt_trans; [exact H63|]. reflexivity.
Qed.

(** ** The peer name *)

Lemma run_invariant_on_reach (Q : Thread * Answer -> Prop) (I : State -> Prop) :
  I init ->
  (forall sched t a,
      Q (t, a) -> I (run sched init) -> I (step t a (run sched init))) ->
  forall sched, Forall Q sched -> I (run sched init).
Proof.
  intros Hinit Hstep sched.
  induction sched as [|[t a] sched IH] using rev_ind; intros HQ.
  - exact Hinit.
  - apply Forall_app in HQ. destruct HQ as [HQ Hta].
    rewrite run_snoc. apply Hstep.
    + now inversion Hta.
    + now apply IH.
Qed.

Lemma reachable_name_is_generated (Q : Z -> Prop) (sched : Schedule) :
  Forall (fun ta => Q (rand_int (snd ta))) sched ->
  name_is_generated Q (run sched init).
Proof.
  revert sched. apply run_invariant_on_reach.
  - reflexivity.
  - intros sched t a HQ. cbn [snd] in HQ.
    pose proof (reachable_wf sched) as Hwf.
    revert Hwf. generalize (run sched init) as s.
    intros s (Hgo & _) Hname.
    unfold name_is_generated in *. step_cases t a s.
    all: try assumption.
    all: try (destruct (main s); cbn [before_go] in Hgo;
              try (destruct Hgo; congruence)).
    all: try match goal with
             | |- context [match ?e with Some _ => _ | None => _ end] => destruct e
             end.
    all: try (rewrite Hname; reflexivity).
    all: try (destruct Hname as (t0 & r & later & Hh & Hl & Hn & Hq);
              exists t0, r;
              match goal with
              | |- context [?e :: hist _] => exists (e :: later)
              end;
              rewrite Hh; repeat split; auto; fail).
    + exists t. now rewrite Hname.
    + destruct Hname as [t Hh]. exists t, (rand_int a), []. rewrite Hh.
      repeat split. exact HQ.
Qed.

Lemma not_happened_filter (p : event -> bool) (h : list (Thread * event)) :
  happened p h = false -> filter (fun te => p (snd te)) h = [].
Proof.
  unfold happened. induction h as [|te h IH]; [reflexivity|].
  cbn [existsb filter]. intros H. apply orb_false_elim in H as [H1 H2].
  rewrite H1. now apply IH.
Qed.

Lemma not_happened_In (p : event -> bool) (h : list (Thread * event)) t e :
  happened p h = false -> In (t, e) h -> p e = false.
Proof.
  unfold happened. intros H Hin.
  destruct (p e) eqn:E; [|reflexivity].
  rewrite <- H. symmetry. apply existsb_exists. exists (t, e). now split.
Qed.

(** C3: in every run in which [rand.Int] returns non-negative [int]s, it is
    called at most once, by main, as the third call of the process (after
    the clock and the seed); as soon as it has been called, [name] is
    [peer-] followed by the decimal digits of the number drawn, and nothing
    else; and a process that has made three calls has drawn its name. *)
Theorem C3_peer_name_generated_once (sched : Schedule) :
  Forall (fun ta => non_negative_int (rand_int (snd ta))) sched ->
  let s := run sched init in
  (List.length (filter (fun te => is_rand_int (snd te)) (hist s)) <= 1)%nat
  /\ (forall t r,
        In (t, EvRandInt r) (hist s) ->
        t = Main
        /\ (exists seed later,
               hist s = later ++ [(Main, EvRandInt r); (Main, EvSeed seed);
                                  (Main, EvNow seed)]
               /\ happened is_rand_int later = false)
        /\ name s = "peer-" +++ Itoa r
        /\ matches_peer_pattern (name s) = true
        /\ peer_number (name s) = Some r)
  /\ ((3 <= List.length (hist s))%nat ->
      exists r, In (Main, EvRandInt r) (hist s)).
Proof.
  intros Hrand s. subst s.
  pose proof (reachable_name_is_generated _ sched Hrand) as Hn.
  revert Hn. generalize (run sched init) as s. intros s Hn.
  assert (Hshape :
    (hist s = [] \/ (exists t, hist s = [(Main, EvNow t)])
     \/ (exists t, hist s = [(Main, EvSeed t); (Main, EvNow t)]))
    \/ exists t r later,
        hist s = later ++ [(Main, EvRandInt r); (Main, EvSeed t); (Main, EvNow t)]
        /\ happened is_rand_int later = false
        /\ name s = "peer-" +++ Itoa r
        /\ non_negative_int r).
  { unfold name_is_generated in Hn. destruct (main s); eauto 10. }
  clear Hn. destruct Hshape as [Hearly | (t0 & r0 & later & Hh & Hl & Hname & Hr)].
  - assert (Hno : happened is_rand_int (hist s) = false
                  /\ (List.length (hist s) < 3)%nat).
    { destruct Hearly as [-> | [[t ->] | [t ->]]]; cbn; split; (reflexivity || lia). }
    destruct Hno as [Hno Hlen].
    split; [|split].
    + rewrite (not_happened_filter _ _ Hno). cbn. lia.
    + intros t r Hin. now apply (not_happened_In _ _ _ _ Hno) in Hin.
    + lia.
  - split; [|split].
    + rewrite Hh, filter_app, (not_happened_filter _ _ Hl). cbn. lia.
    + intros t r Hin. rewrite Hh in Hin. apply in_app_or in Hin.
      destruct Hin as [Hin | Hin].
      * now apply (not_happened_In _ _ _ _ Hl) in Hin.
      * destruct Hin as [E | [E | [E | []]]]; try discriminate.
        injection E as <- <-.
        destruct (peer_name_pattern r0 Hr) as [Hpat Hnum].
        rewrite Hname. repeat split; eauto.
    + intros _. exists r0. rewrite Hh. apply in_or_app. right. now left.
Qed.

(** C3 applied to a whole start-up in the world [world]. *)
Lemma C3_peer_name_generated_once_witness :
  name (run startup init) = "peer-" +++ Itoa 5577006791947779410
  /\ matches_peer_pattern (name (run startup init)) = true.
Proof.
  assert (Hrand :
    Forall (fun ta => non_negative_int (rand_int (snd ta))) startup).
  { repeat constructor; cbn; lia. }
  destruct (proj1 (proj2 (C3_peer_name_generated_once startup Hrand))
              Main 5577006791947779410) as (_ & _ & Hname & Hpat & _).
  - vm_compute. tauto.
  - split; [exact Hname | exact Hpat].
Defined.

Lemma always_head {A : Type} (P : list A -> Prop) (h : list A) :
  always P h -> P h.
Proof. destruct h; now intros [H _]. Qed.

Lemma always_tail {A : Type} (P : list A -> Prop) (x : A) (h : list A) :
  always P (x :: h) -> always P h.
Proof. now intros [_ H]. Qed.

Lemma length_list_byte_of_string (s : string) :
  List.length (list_byte_of_string s) = String.length s.
Proof.
  unfold list_byte_of_string. rewrite length_map.
  induction s as [|c s IH]; [reflexivity|]. cbn. now rewrite IH.
Qed.

(** The read of line 85, in a reachable state: the count is the length of
    the datagram or the 1024 bytes of the buffer, whichever is less. *)
Lemma main_step_at_read (sched : Schedule) (a : Answer) :
  main (run sched init) = M85_Read ->
  status (run sched init) = Running ->
  read_err a = None ->
  let s := run sched init in
  let n := Nat.min (List.length (dgram a)) 1024 in
  step Main a s
  = s |> emit Main (EvReadFromUDP (conn s) (dgram a) (Z.of_nat n) (from a) None)
      |> set_buf (firstn n (dgram a) ++ skipn n (buf s))
      |> goto (M86_Printf (Z.of_nat n) (from a) None).
Proof.
  pose proof (reachable_wf sched) as (_ & _ & Hbuf & _).
  revert Hbuf. generalize (run sched init) as s. intros s Hbuf Hpc Est Herr s' n.
  subst s' n. unfold step. rewrite Est. unfold main_step, recvfrom, ReadFromUDP.
  rewrite Hpc, Herr in *. now rewrite (Hbuf eq_refl).
Qed.

(** The read of line 85 when the kernel answers with an error: the count is
    0, the sender nil, the buffer as it was, and main goes on to line 86
    with that error; the process keeps running. *)
Lemma main_step_at_failed_read (a : Answer) (s : State) (err : error) :
  main s = M85_Read ->
  status s = Running ->
  read_err a = Some err ->
  step Main a s
  = s |> emit Main (EvReadFromUDP (conn s) [] 0 None (Some err))
      |> set_buf (buf s)
      |> goto (M86_Printf 0 None (Some err)).
Proof.
  intros Hpc Est Herr. unfold step. rewrite Est. unfold main_step, recvfrom.
  now rewrite Hpc, Herr.
Qed.

Lemma read_counts_are_bounded (sched : Schedule) :
  always read_count_is_bounded (calls_of Main (hist (run sched init))).
Proof.
  revert sched. apply always_calls.
  - intros c d n addr err h' H. discriminate.
  - intros sched a e Hstep c d n addr err h' H. injection H as -> _.
    pose proof (call_means_running _ _ _ _ Hstep) as Est.
    pose proof (main_call_at a _ _ Est Hstep) as Hcall.
    pose proof (reachable_wf sched) as (_ & _ & Hbuf & _).
    destruct (main (run sched init));
      try (destruct Hcall as (? & ?); discriminate);
      try (destruct Hcall as (? & ? & ?); discriminate);
      try discriminate.
    all: try (destruct (slice _ 0 _); discriminate).
    destruct (read_err a); injection Hcall as -> -> -> -> ->;
      [reflexivity | now rewrite (Hbuf eq_refl)].
Qed.

Lemma failed_reads_are_empty (sched : Schedule) :
  always failed_read_is_empty (calls_of Main (hist (run sched init))).
Proof.
  revert sched. apply always_calls.
  - intros c d n addr err h' H. discriminate.
  - intros sched a e Hstep c d n addr err h' H. injection H as -> _.
    pose proof (call_means_running _ _ _ _ Hstep) as Est.
    pose proof (main_call_at a _ _ Est Hstep) as Hcall.
    destruct (main (run sched init));
      try (destruct Hcall as (? & ?); discriminate);
      try (destruct Hcall as (? & ? & ?); discriminate);
      try discriminate.
    all: try (destruct (slice _ 0 _); discriminate).
    destruct (read_err a); [|discriminate].
    injection Hcall as _ <- <- <- _. auto.
Qed.

Lemma failed_reads_are_logged (sched : Schedule) :
  always failed_read_is_logged (calls_of Main (hist (run sched init))).
Proof.
  revert sched. apply always_calls.
  - split; intros; discriminate.
  - intros sched a e Hstep.
    pose proof (call_means_running _ _ _ _ Hstep) as Est.
    split.
    + intros e1 c d n addr err h' H. injection H as <- Hc.
      rewrite (main_step_after_read sched a _ _ _ _ _ _ Hc Est) in Hstep.
      now injection Hstep as <-.
    + intros e2 e1 c d n addr err h' H. injection H as <- Hc.
      pose proof (always_head _ _ (reads_are_logged sched)) as Hlog.
      rewrite (Hlog _ _ _ _ _ _ _ Hc) in Hc.
      rewrite (main_step_after_failed_read sched a _ _ _ _ _ _ _ Hc Est) in Hstep.
      now injection Hstep as <-.
Qed.

(** ** C5: every datagram is logged *)

Lemma firstn_min_length {A : Type} (k : nat) (l : list A) :
  firstn (Nat.min (List.length l) k) l = firstn k l.
Proof.
  destruct (Nat.le_ge_cases (List.length l) k) as [H | H].
  - rewrite Nat.min_l by exact H.
    now rewrite firstn_all, firstn_all2.
  - now rewrite Nat.min_r.
Qed.

(** The read of a datagram the kernel delivers and the line after it, in a
    reachable state: the line shows the bytes of the datagram, up to 1024 of
    them, and its sender. *)
Lemma read_then_line (sched : Schedule) (a a' : Answer) :
  main (run sched init) = M85_Read ->
  status (run sched init) = Running ->
  read_err a = None ->
  let s := run sched init in
  hist (step Main a' (step Main a s))
  = (Main, EvPrintf (received_line (firstn 1024 (dgram a)) (from a)))
    :: (Main, EvReadFromUDP (conn s) (dgram a)
                (Z.of_nat (Nat.min (List.length (dgram a)) 1024)) (from a) None)
    :: hist s.
Proof.
  intros Hpc Est Herr s. subst s.
  pose proof (main_step_at_read sched a Hpc Est Herr) as Hread.
  cbv zeta in Hread.
  pose proof (main_step_after_read (sched ++ [(Main, a)]) a'
                (conn (run sched init)) (dgram a)
                (Z.of_nat (Nat.min (List.length (dgram a)) 1024))
                (from a) None
                (calls_of Main (hist (run sched init)))) as Hlog.
  rewrite run_snoc, Hread in Hlog. state_simpl.
  cbn [calls_of Thread_eqb] in Hlog. specialize (Hlog eq_refl Est).
  rewrite Hread, Hlog. state_simpl.
  now rewrite Nat2Z.id, firstn_min_length.
Qed.

(** C5: at every moment of every run, the call main makes after a read is
    the "Received" line carrying the bytes that read copied, decoded as
    text, and the sender that read returned, whatever they are; a running
    process whose newest call of main is a read makes exactly that call
    next; whatever datagram the kernel delivers to a listener that is at its
    read, from whatever sender, the next two calls of main are the read of
    that datagram and the line with its bytes (up to 1024) and its sender;
    and a datagram that carries the process's own name is logged with that
    name and its sender like any other. *)
Theorem C5_every_datagram_is_logged (sched : Schedule) :
  let s := run sched init in
  always read_is_logged (calls_of Main (hist s))
  /\ (forall c d n addr err h' a,
        calls_of Main (hist s) = EvReadFromUDP c d n addr err :: h' ->
        status s = Running ->
        hist (step Main a s)
        = (Main, EvPrintf (received_line (firstn (Z.to_nat n) d) addr)) :: hist s)
  /\ (forall a a',
        main s = M85_Read ->
        status s = Running ->
        read_err a = None ->
        hist (step Main a' (step Main a s))
        = (Main, EvPrintf (received_line (firstn 1024 (dgram a)) (from a)))
          :: (Main, EvReadFromUDP (conn s) (dgram a)
                      (Z.of_nat (Nat.min (List.length (dgram a)) 1024))
                      (from a) None)
          :: hist s)
  /\ (forall a a',
        main s = M85_Read ->
        status s = Running ->
        read_err a = None ->
        dgram a = list_byte_of_string (name s) ->
        hist (step Main a' (step Main a s))
        = (Main, EvPrintf ("Received '" +++ name s +++ "' from "
                           +++ UDPAddr_String (from a)))
          :: (Main, EvReadFromUDP (conn s) (dgram a)
                      (Z.of_nat (String.length (name s))) (from a) None)
          :: hist s).
Proof.
  intros s. subst s. split; [apply reads_are_logged | split; [|split]].
  - intros c d n addr err h' a Hc Est.
    now rewrite (main_step_after_read sched a _ _ _ _ _ _ Hc Est).
  - intros a a'. apply read_then_line.
  - intros a a' Hpc Est Herr Hd.
    assert (Hlen : (List.length (dgram a) <= 1024)%nat
                   /\ List.length (dgram a) = String.length (name (run sched init))).
    { rewrite Hd, length_list_byte_of_string.
      pose proof (reachable_name_is_generated (fun _ => True) sched) as Hn.
      unfold name_is_generated in Hn. rewrite Hpc in Hn.
      destruct Hn as (t & r & later & _ & _ & -> & _).
      - apply Forall_forall. trivial.
      - pose proof (Itoa_length r). cbn [String.append String.length]. lia. }
    destruct Hlen as [Hle Hlen].
    rewrite (read_then_line sched a a' Hpc Est Herr).
    rewrite Nat.min_l, Hlen by exact Hle.
    rewrite firstn_all2 by exact Hle.
    unfold received_line. rewrite Hd at 1.
    now rewrite string_of_list_byte_of_string.
Qed.

(** C5 applied to the process reading its own broadcast (after a start-up
    and one round of the broadcaster, the datagram read is the process's own
    name, sent from the source port of its own broadcaster) and to datagrams
    from two IPv6 senders, whose addresses are printed in brackets, the
    second with its zone. *)
Lemma C5_every_datagram_is_logged_witness :
  hist (step Main world (step Main world (run (startup ++ broadcast_once) init)))
  = (Main, EvPrintf "Received 'peer-5577006791947779410' from 192.168.1.7:51234")
    :: (Main, EvReadFromUDP (Some (mkUDPConn (Some all_interfaces) None))
                (list_byte_of_string "peer-5577006791947779410") 24
                (Some own_source) None)
    :: hist (run (startup ++ broadcast_once) init)
  /\ hist (step Main world (step Main world_loopback6 (run startup init)))
     = (Main, EvPrintf "Received 'peer-42' from [::1]:40001")
       :: (Main, EvReadFromUDP (Some (mkUDPConn (Some all_interfaces) None))
                   (list_byte_of_string "peer-42") 7 (Some loopback6) None)
       :: hist (run startup init)
  /\ hist (step Main world (step Main world_link_local6 (run startup init)))
     = (Main, EvPrintf "Received 'peer-43' from [fe80::1%eth0]:40002")
       :: (Main, EvReadFromUDP (Some (mkUDPConn (Some all_interfaces) None))
                   (list_byte_of_string "peer-43") 7 (Some link_local6) None)
       :: hist (run startup init).
Proof.
  assert (Hpc : main (run startup init) = M85_Read) by (vm_compute; reflexivity).
  assert (Est : status (run startup init) = Running) by (vm_compute; reflexivity).
  split; [|split].
  - exact (proj2 (proj2 (proj2
             (C5_every_datagram_is_logged (startup ++ broadcast_once))))
             world world eq_refl eq_refl eq_refl eq_refl).
  - exact (proj1 (proj2 (proj2 (C5_every_datagram_is_logged startup)))
             world_loopback6 world Hpc Est eq_refl).
  - exact (proj1 (proj2 (proj2 (C5_every_datagram_is_logged startup)))
             world_link_local6 world Hpc Est eq_refl).
Defined.

(** ** C6: the logged payload and the buffer *)

(** The read of a datagram of more than 1024 bytes that the kernel
    delivers: the count is 1024, there is no error, and the buffer holds the
    first 1024 bytes of the datagram and nothing else. *)
Lemma main_step_at_long_read (sched : Schedule) (a : Answer) :
  main (run sched init) = M85_Read ->
  status (run sched init) = Running ->
  read_err a = None ->
  (1024 < List.length (dgram a))%nat ->
  let s := run sched init in
  step Main a s
  = s |> emit Main (EvReadFromUDP (conn s) (dgram a) 1024 (from a) None)
      |> set_buf (firstn 1024 (dgram a))
      |> goto (M86_Printf 1024 (from a) None).
Proof.
  intros Hpc Est Herr Hlong s. subst s.
  pose proof (reachable_wf sched) as (_ & _ & Hbuf & _).
  rewrite Hpc in Hbuf. specialize (Hbuf eq_refl).
  rewrite (main_step_at_read sched a Hpc Est Herr).
  rewrite Nat.min_r by lia.
  rewrite skipn_all2 by lia. now rewrite app_nil_r.
Qed.

(** C6: at every moment of every run the count a read returns is the length
    of the datagram or 1024, whichever is less, the line printed after the
    read shows the first [n] bytes of that datagram and nothing else, and a
    read that returned an error delivered nothing; no call ever panics.
    When the newest call of main is a read that returned [n], the buffer has
    its 1024 bytes, [n] is at most 1024, and for a datagram of more than
    1024 bytes [n] is exactly 1024 and the read returned no error; the slice
    [buf[0:n]] is in bounds and holds the first [n] bytes of the datagram,
    and a running process prints that slice next and goes on to the next
    read, or to the error line when the read returned an error.  A listener
    at its read to which the kernel delivers a datagram of more than 1024
    bytes reads the first 1024 of them, without error. *)
Theorem C6_logged_payload_is_buffer_prefix (sched : Schedule) :
  let s := run sched init in
  always read_count_is_bounded (calls_of Main (hist s))
  /\ always read_is_logged (calls_of Main (hist s))
  /\ always failed_read_is_empty (calls_of Main (hist s))
  /\ happened is_panic (hist s) = false
  /\ (forall c d n addr err h',
        calls_of Main (hist s) = EvReadFromUDP c d n addr err :: h' ->
        List.length (buf s) = 1024%nat
        /\ 0 <= n <= 1024
        /\ ((1024 < List.length d)%nat -> n = 1024 /\ err = None)
        /\ exists payload,
            slice (buf s) 0 n = Some payload
            /\ payload = firstn (Z.to_nat n) (buf s)
            /\ payload = firstn (Z.to_nat n) d
            /\ forall a,
                status s = Running ->
                step Main a s
                = s |> emit Main (EvPrintf (received_line payload addr))
                    |> goto (match err with
                             | Some e => M88_Printf e
                             | None => M85_Read
                             end))
  /\ (forall a,
        main s = M85_Read ->
        status s = Running ->
        read_err a = None ->
        (1024 < List.length (dgram a))%nat ->
        step Main a s
        = s |> emit Main (EvReadFromUDP (conn s) (dgram a) 1024 (from a) None)
            |> set_buf (firstn 1024 (dgram a))
            |> goto (M86_Printf 1024 (from a) None)).
Proof.
  intros s. subst s.
  split; [apply read_counts_are_bounded|].
  split; [apply reads_are_logged|].
  split; [apply failed_reads_are_empty|].
  pose proof (reachable_startup_matches_history sched)
    as (_ & _ & _ & _ & _ & _ & _ & _ & _ & _ & H11 & _).
  split; [exact H11|].
  split; [|intros a; apply main_step_at_long_read].
  intros c d n addr err h' Hc.
  pose proof (reachable_wf sched) as (_ & _ & Hbuf & Hn & _).
  pose proof (reachable_main_follows_history sched) as (L1 & _).
  destruct (L1 _ _ _ _ _ _ Hc) as (Hpc & _ & Hcount & Hfront).
  rewrite Hpc in Hbuf, Hn. specialize (Hbuf eq_refl). specialize (Hn _ _ _ eq_refl).
  split; [exact Hbuf|]. split; [exact Hn|]. split.
  { intros Hlong. split; [lia|].
    destruct err as [e|]; [|reflexivity].
    pose proof (always_head _ _ (failed_reads_are_empty sched)) as Hempty.
    destruct (Hempty _ _ _ _ _ _ Hc) as (-> & _).
    cbn in Hlong. lia. }
  exists (firstn (Z.to_nat n) (buf (run sched init))).
  split; [apply slice_in_bounds; rewrite Hbuf; exact Hn|].
  split; [reflexivity|]. split; [exact Hfront|].
  intros a Est. rewrite (main_step_after_read sched a _ _ _ _ _ _ Hc Est).
  now rewrite Hfront.
Qed.

(** C6 applied to a datagram of 1030 bytes that arrives after a start-up:
    the read returns 1024 and no error, the line shows the first 1024 bytes,
    and main is back at the read. *)
Lemma C6_logged_payload_is_buffer_prefix_witness :
  step Main world_oversized (run startup init)
  = run startup init
      |> emit Main (EvReadFromUDP (Some (mkUDPConn (Some all_interfaces) None))
                      (dgram world_oversized) 1024 (Some other_peer) None)
      |> set_buf (repeat "a"%byte 1024)
      |> goto (M86_Printf 1024 (Some other_peer) None)
  /\ step Main world (run (startup ++ [(Main, world_oversized)]) init)
     = run (startup ++ [(Main, world_oversized)]) init
         |> emit Main (EvPrintf (received_line (repeat "a"%byte 1024)
                                   (Some other_peer)))
         |> goto M85_Read.
Proof.
  assert (Hpc : main (run startup init) = M85_Read) by (vm_compute; reflexivity).
  assert (Est0 : status (run startup init) = Running) by (vm_compute; reflexivity).
  assert (Hlong : (1024 < List.length (dgram world_oversized))%nat)
    by (vm_compute; lia).
  assert (Hconn : conn (run startup init)
                  = Some (mkUDPConn (Some all_interfaces) None))
    by (vm_compute; reflexivity).
  assert (Hfirst : firstn 1024 (dgram world_oversized) = repeat "a"%byte 1024)
    by (vm_compute; reflexivity).
  assert (Hc : calls_of Main (hist (run (startup ++ [(Main, world_oversized)]) init))
               = EvReadFromUDP (Some (mkUDPConn (Some all_interfaces) None))
                   (dgram world_oversized) 1024
                   (Some other_peer) None
                 :: calls_of Main (hist (run startup init)))
    by (vm_compute; reflexivity).
  assert (Est : status (run (startup ++ [(Main, world_oversized)]) init) = Running)
    by (vm_compute; reflexivity).
  split.
  - rewrite (proj2 (proj2 (proj2 (proj2 (proj2
               (C6_logged_payload_is_buffer_prefix startup)))))
               world_oversized Hpc Est0 eq_refl Hlong).
    now rewrite Hconn, Hfirst.
  - destruct (proj1 (proj2 (proj2 (proj2 (proj2
                (C6_logged_payload_is_buffer_prefix
                   (startup ++ [(Main, world_oversized)]))))))
                _ _ _ _ _ _ Hc)
      as (_ & _ & _ & payload & _ & _ & Hpay & Hlog).
    rewrite (Hlog world Est), Hpay.
    change (Z.to_nat 1024) with 1024%nat. now rewrite Hfirst.
Defined.

(** ** C10: a failed read is logged before its error *)

(** C10: at every moment of every run, the two calls main makes after a
    read that returned an error are the "Received" line, with the count and
    the sender that read returned, and then the error line; and a running
    process whose newest call of main is such a read, or the line after it,
    makes exactly that call next and stays running. *)
Theorem C10_received_line_before_error (sched : Schedule) :
  let s := run sched init in
  always failed_read_is_logged (calls_of Main (hist s))
  /\ (forall c d n addr err h' a,
        calls_of Main (hist s) = EvReadFromUDP c d n addr (Some err) :: h' ->
        status s = Running ->
        hist (step Main a s)
        = (Main, EvPrintf (received_line (firstn (Z.to_nat n) d) addr)) :: hist s
          /\ status (step Main a s) = Running)
  /\ (forall l c d n addr err h' a,
        calls_of Main (hist s)
        = EvPrintf l :: EvReadFromUDP c d n addr (Some err) :: h' ->
        status s = Running ->
        hist (step Main a s) = (Main, EvPrintf ("Error: " +++ err)) :: hist s
        /\ status (step Main a s) = Running).
Proof.
  intros s. subst s. split; [apply failed_reads_are_logged | split].
  - intros c d n addr err h' a Hc Est.
    rewrite (main_step_after_read sched a _ _ _ _ _ _ Hc Est). now split.
  - intros l c d n addr err h' a Hc Est.
    rewrite (main_step_after_failed_read sched a _ _ _ _ _ _ _ Hc Est).
    now split.
Qed.

(** C10 applied to a read that fails right after the start-up, with no
    byte and no sender. *)
Lemma C10_received_line_before_error_witness :
  hist (step Main world_unread
          (run (startup ++ repeat (Main, world_unread) 2) init))
  = (Main, EvPrintf "Error: use of closed network connection")
    :: hist (run (startup ++ repeat (Main, world_unread) 2) init)
  /\ status (step Main world_unread
               (run (startup ++ repeat (Main, world_unread) 2) init))
     = Running.
Proof.
  assert (Hc : calls_of Main
                 (hist (run (startup ++ repeat (Main, world_unread) 2) init))
               = EvPrintf "Received '' from <nil>"
                 :: EvReadFromUDP (Some (mkUDPConn (Some all_interfaces) None))
                      [] 0 None (Some "use of closed network connection"%string)
                 :: calls_of Main (hist (run startup init)))
    by (vm_compute; reflexivity).
  assert (Est : status (run (startup ++ repeat (Main, world_unread) 2) init)
                = Running)
    by (vm_compute; reflexivity).
  exact (proj2 (proj2 (C10_received_line_before_error
                         (startup ++ repeat (Main, world_unread) 2)))
           _ _ _ _ _ _ _ world_unread Hc Est).
Defined.

(** ** The broadcaster loop *)

(** When the newest call of the goroutine is a write that failed and the
    process is running, the next call of the goroutine prints the error and
    the goroutine is back at the top of its loop. *)
Lemma goroutine_step_after_failed_write (sched : Schedule) (a : Answer)
    c b err h' :
  calls_of Goroutine (hist (run sched init)) = EvWrite c b (Some err) :: h' ->
  status (run sched init) = Running ->
  step Goroutine a (run sched init)
  = (run sched init)
      |> emit Goroutine (EvPrintf ("Error: " +++ err)) |> go_goto G47_Sleep.
Proof.
  pose proof (reachable_goroutine_follows_history sched) as (_ & G2 & _).
  revert G2. generalize (run sched init) as s. intros s G2 Hc Est.
  unfold step. rewrite Est. now rewrite (G2 _ _ _ _ Hc).
Qed.

(** After the error line of a failed write the goroutine sleeps: the next
    round of the loop has begun. *)
Lemma goroutine_step_after_error_line (sched : Schedule) (a : Answer)
    l c b err h' :
  calls_of Goroutine (hist (run sched init))
  = EvPrintf l :: EvWrite c b (Some err) :: h' ->
  status (run sched init) = Running ->
  step Goroutine a (run sched init)
  = (run sched init) |> emit Goroutine (EvSleep Second) |> go_goto G48_Printf.
Proof.
  pose proof (reachable_goroutine_follows_history sched) as (_ & _ & G3 & _).
  revert G3. generalize (run sched init) as s. intros s G3 Hc Est.
  unfold step. rewrite Est. now rewrite (G3 _ _ _ _ _ Hc).
Qed.

Lemma failed_writes_continue (sched : Schedule) :
  always failed_write_continues (calls_of Goroutine (hist (run sched init))).
Proof.
  revert sched.
  assert (Hfirst : forall sched a e e1 c b err h',
    hist (step Goroutine a (run sched init))
    = (Goroutine, e) :: hist (run sched init) ->
    e :: calls_of Goroutine (hist (run sched init))
    = e1 :: EvWrite c b (Some err) :: h' ->
    e1 = EvPrintf ("Error: " +++ err)).
  { intros sched a e e1 c b err h' Hstep H. injection H as <- Hc.
    rewrite (goroutine_step_after_failed_write sched a _ _ _ _ Hc) in Hstep
      by (eapply call_means_running; eassumption).
    now injection Hstep as <-. }
  assert (Hall : forall sched,
    always (fun h => forall e1 c b err h',
                h = e1 :: EvWrite c b (Some err) :: h' ->
                e1 = EvPrintf ("Error: " +++ err))
      (calls_of Goroutine (hist (run sched init)))).
  { apply always_calls; [intros; discriminate|].
    intros sched a e Hstep e1 c b err h' H. eapply Hfirst; eassumption. }
  apply always_calls.
  - split; intros; discriminate.
  - intros sched a e Hstep.
    pose proof (call_means_running _ _ _ _ Hstep) as Est.
    split.
    + intros e1 c b err h' H. eapply Hfirst; eassumption.
    + intros e2 e1 c b err h' H. injection H as <- Hc.
      rewrite (always_head _ _ (Hall sched) _ _ _ _ _ Hc) in Hc.
      rewrite (goroutine_step_after_error_line sched a _ _ _ _ _ Hc Est) in Hstep.
      now injection Hstep as <-.
Qed.

Lemma failed_reads_continue (sched : Schedule) :
  always failed_read_continues (calls_of Main (hist (run sched init))).
Proof.
  revert sched. apply always_calls.
  - split; intros; discriminate.
  - intros sched a e Hstep.
    pose proof (call_means_running _ _ _ _ Hstep) as Est.
    pose proof (failed_reads_are_logged sched) as Hlog.
    split.
    + intros e2 e1 c d n addr err h' H. injection H as <- Hc.
      rewrite Hc in Hlog. apply always_head in Hlog.
      destruct Hlog as [Hlog _]. rewrite (Hlog _ _ _ _ _ _ _ eq_refl) in Hc.
      rewrite (main_step_after_failed_read sched a _ _ _ _ _ _ _ Hc Est) in Hstep.
      now injection Hstep as <-.
    + intros e3 e2 e1 c d n addr err h' H. injection H as <- Hc.
      rewrite Hc in Hlog.
      pose proof (always_head _ _ Hlog) as [_ H2].
      apply always_tail, always_head in Hlog.
      destruct Hlog as [H1 _].
      rewrite (H2 _ _ _ _ _ _ _ _ eq_refl), (H1 _ _ _ _ _ _ _ eq_refl) in Hc.
      pose proof (reachable_main_follows_history sched) as (_ & _ & L3).
      pose proof (main_call_at a _ _ Est Hstep) as Hcall.
      rewrite (L3 _ _ _ _ _ _ _ _ Hc) in Hcall.
      destruct (read_err a); eauto 10.
Qed.

Lemma reachable_fatalf_follows_failure (sched : Schedule) :
  fatalf_follows_failure (run sched init).
Proof.
  revert sched. apply run_invariant.
  - intros _. split; intros H; discriminate.
  - intros t a s Hinv. unfold fatalf_follows_failure in *.
    step_cases t a s.
    all: cbn [calls_of Thread_eqb main_at_fatalf goroutine_at_fatalf].
    all: try (intros E; discriminate E).
    all: try match goal with
             | |- context [match ?e with Some _ => _ | None => _ end] => destruct e
             end;
      cbn [main_at_fatalf goroutine_at_fatalf].
    all: try rewrite Epc.
    all: try (intros _; destruct (Hinv eq_refl) as [Hm Hg];
              split; intros H; try discriminate H; auto;
              try (eexists; eexists; split; [reflexivity|reflexivity]); fail).
    intros E. rewrite E in Est. discriminate Est.
Qed.

Lemma fatalf_is_only_at_startup (t : Thread) (sched : Schedule) :
  always fatalf_only_at_startup (calls_of t (hist (run sched init))).
Proof.
  revert sched. apply always_calls.
  - intros line h' H. discriminate.
  - intros sched a e Hstep line h' H. injection H as -> <-.
    pose proof (call_means_running _ _ _ _ Hstep) as Est.
    destruct (reachable_fatalf_follows_failure sched Est) as [Hm Hg].
    destruct t.
    + pose proof (main_call_at a _ _ Est Hstep) as Hcall.
      apply Hm.
      destruct (main (run sched init)); try reflexivity;
        try discriminate Hcall;
        try (destruct Hcall as (? & Hcall); discriminate Hcall);
        try (destruct Hcall as (? & ? & Hcall); discriminate Hcall).
      * destruct (read_err a); discriminate Hcall.
      * destruct (slice (buf (run sched init)) 0 n); discriminate Hcall.
    + pose proof (goroutine_call_at a _ _ Est Hstep) as Hcall.
      apply Hg.
      destruct (goroutine (run sched init)) as [[]|]; try reflexivity;
        try discriminate Hcall;
        try (destruct Hcall as (? & Hcall); discriminate Hcall).
      destruct Hcall.
Qed.

(** ** C2: errors inside the loops *)

(** The write of line 49 when it fails: the goroutine goes on to the error
    line, and the process keeps running. *)
Lemma goroutine_step_at_failed_write (a : Answer) (s : State) (err : error) :
  goroutine s = Some G49_Write ->
  status s = Running ->
  written a = Some err ->
  step Goroutine a s
  = s |> emit Goroutine (EvWrite (gconn s) (list_byte_of_string (name s)) (Some err))
      |> go_goto (G50_Printf err).
Proof.
  intros Hpc Est Hw. unfold step. rewrite Est, Hpc. cbn [goroutine_step].
  now rewrite Hw.
Qed.

(** Inside the listener loop no call of main ends the process or leaves
    the loop, whatever the read returns. *)
Lemma listener_loop_step (sched : Schedule) (a : Answer) :
  in_listener_loop (main (run sched init)) = true ->
  status (run sched init) = Running ->
  status (step Main a (run sched init)) = Running
  /\ in_listener_loop (main (step Main a (run sched init))) = true.
Proof.
  pose proof (reachable_wf sched) as (_ & _ & Hbuf & Hn & _).
  revert Hbuf Hn. generalize (run sched init) as s. intros s Hbuf Hn Hloop Est.
  specialize (Hbuf Hloop).
  unfold step. rewrite Est. unfold main_step, recvfrom, ReadFromUDP.
  destruct (main s) eqn:Epc; try discriminate Hloop.
  - destruct (read_err a); state_simpl; now rewrite Est.
  - rewrite slice_in_bounds by (rewrite Hbuf; apply (Hn _ _ _ eq_refl)).
    state_simpl. rewrite Est. now destruct err.
  - state_simpl. now rewrite Est.
Qed.

(** Inside the broadcaster loop no call of the goroutine ends the process
    or leaves the loop, whatever the write returns. *)
Lemma broadcaster_loop_step (a : Answer) (s : State) :
  in_broadcaster_loop (goroutine s) = true ->
  status s = Running ->
  status (step Goroutine a s) = Running
  /\ in_broadcaster_loop (goroutine (step Goroutine a s)) = true.
Proof.
  intros Hloop Est. unfold step. rewrite Est.
  destruct (goroutine s) as [[]|] eqn:Epc; try discriminate Hloop;
    cbn [goroutine_step]; state_simpl; rewrite Est;
    try destruct (written a); auto.
Qed.

(** C2: at every moment of every run, after a write that returned an error
    the goroutine prints that error and then sleeps (the next round of its
    loop); after a read that returned an error main prints, after the
    "Received" line, that error and then reads again; a [log.Fatalf] of
    either thread comes directly after a failed resolution, dial or bind and
    so never after a write or a read.  In a running process, call by call:
    a write that fails takes the goroutine to the error line, and the error
    line takes it back to the sleep at the top of its loop; a read that
    fails takes main to the "Received" line, that line takes it to the
    error line, and the error line takes it back to the read; each of these
    calls leaves the process running.  And inside its loop no call of
    either thread, whatever the world answers, ends the process or leaves
    the loop. *)
Theorem C2_loop_errors_are_logged_not_fatal (sched : Schedule) :
  let s := run sched init in
  always failed_write_continues (calls_of Goroutine (hist s))
  /\ always failed_read_continues (calls_of Main (hist s))
  /\ always fatalf_only_at_startup (calls_of Goroutine (hist s))
  /\ always fatalf_only_at_startup (calls_of Main (hist s))
  /\ (forall a err,
        goroutine s = Some G49_Write ->
        status s = Running ->
        written a = Some err ->
        step Goroutine a s
        = s |> emit Goroutine
                 (EvWrite (gconn s) (list_byte_of_string (name s)) (Some err))
            |> go_goto (G50_Printf err))
  /\ (forall c b err h' a,
        calls_of Goroutine (hist s) = EvWrite c b (Some err) :: h' ->
        status s = Running ->
        step Goroutine a s
        = s |> emit Goroutine (EvPrintf ("Error: " +++ err)) |> go_goto G47_Sleep)
  /\ (forall a err,
        main s = M85_Read ->
        status s = Running ->
        read_err a = Some err ->
        step Main a s
        = s |> emit Main (EvReadFromUDP (conn s) [] 0 None (Some err))
            |> set_buf (buf s)
            |> goto (M86_Printf 0 None (Some err)))
  /\ (forall c d n addr err h' a,
        calls_of Main (hist s) = EvReadFromUDP c d n addr (Some err) :: h' ->
        status s = Running ->
        step Main a s
        = s |> emit Main (EvPrintf (received_line (firstn (Z.to_nat n) d) addr))
            |> goto (M88_Printf err))
  /\ (forall l c d n addr err h' a,
        calls_of Main (hist s)
        = EvPrintf l :: EvReadFromUDP c d n addr (Some err) :: h' ->
        status s = Running ->
        step Main a s
        = s |> emit Main (EvPrintf ("Error: " +++ err)) |> goto M85_Read)
  /\ (forall a,
        in_listener_loop (main s) = true ->
        status s = Running ->
        status (step Main a s) = Running
        /\ in_listener_loop (main (step Main a s)) = true)
  /\ (forall a,
        in_broadcaster_loop (goroutine s) = true ->
        status s = Running ->
        status (step Goroutine a s) = Running
        /\ in_broadcaster_loop (goroutine (step Goroutine a s)) = true).
Proof.
  intros s. subst s.
  split; [apply failed_writes_continue|].
  split; [apply failed_reads_continue|].
  split; [apply fatalf_is_only_at_startup|].
  split; [apply fatalf_is_only_at_startup|].
  split; [intros a err; apply goroutine_step_at_failed_write|].
  split; [intros c b err h' a; apply goroutine_step_after_failed_write|].
  split; [intros a err; apply main_step_at_failed_read|].
  split; [intros c d n addr err h' a;
          apply (main_step_after_read sched a c d n addr (Some err) h')|].
  split; [intros l c d n addr err h' a; apply main_step_after_failed_read|].
  split; [intros a; apply listener_loop_step|].
  intros a; apply broadcaster_loop_step.
Qed.

(** ** Addresses and sockets *)

Lemma In_calls_of (t : Thread) (e : event) (h : list (Thread * event)) :
  In (t, e) h <-> In e (calls_of t h).
Proof.
  induction h as [|[u e'] h IH]; [reflexivity|].
  cbn [calls_of In]. destruct t, u; cbn [Thread_eqb In]; rewrite <- IH;
    intuition congruence.
Qed.

Lemma reachable_addresses_follow_resolution (sched : Schedule) :
  addresses_follow_resolution (run sched init).
Proof.
  revert sched. apply run_invariant.
  - unfold addresses_follow_resolution; cbn. repeat split; intros; contradiction.
  - intros t a s (A1 & A2 & A3).
    unfold addresses_follow_resolution. step_cases t a s.
    all: try (exact (conj A1 (conj A2 A3))).
    all: try match goal with
             | |- context [match ?e with Some _ => _ | None => _ end] => destruct e
             end.
    all: cbn [bcast_resolved listen_resolved In] in *.
    all: try (destruct (bcast_resolved (main s)); destruct (listen_resolved (main s))).
    all: try (split; [|split];
              [ try assumption;
                try (destruct A1 as (? & ? & ?); eexists; split; eauto; fail)
              | try assumption;
                try (destruct A2 as (? & ? & ?); eexists; split; eauto; fail)
              | intros t' ad res [E | Hin];
                [ try discriminate E | exact (A3 _ _ _ Hin) ] ]; fail).
    all: (split; [|split];
          [ try assumption;
            try (destruct A1 as (? & ? & ?); eexists; split; eauto; fail);
            try (eexists; split; [reflexivity | left; reflexivity])
          | try assumption;
            try (destruct A2 as (? & ? & ?); eexists; split; eauto; fail);
            try (eexists; split; [reflexivity | left; reflexivity])
          | intros t' ad res [E | Hin];
            [ injection E as <- <-; split; [reflexivity|];
              first [ left; split; [reflexivity | intros; congruence]
                    | right; split; [reflexivity | intros; congruence] ]
            | destruct (A3 _ _ _ Hin) as [-> [[-> Hb] | [-> Hl]]];
              (split; [reflexivity|]);
              [ left; split; [reflexivity|];
                intros addr' Hr; specialize (Hb _ Hr); congruence
              | right; split; [reflexivity|];
                intros addr' Hr; specialize (Hl _ Hr); congruence ] ] ]).
Qed.

Lemma reachable_sockets_are_fixed (sched : Schedule) :
  sockets_are_fixed (run sched init).
Proof.
  revert sched. apply run_invariant_reach.
  - unfold sockets_are_fixed; cbn. repeat split; intros; try discriminate;
      contradiction.
  - intros sched t a. pose proof (reachable_wf sched) as Hwf.
    revert Hwf. generalize (run sched init) as s.
    intros s (Hgo & _) (B1 & B2 & C1 & C2 & C3 & C4).
    assert (Hnone : goroutine s = None ->
                    forall e, ~ In (Goroutine, e) (hist s)).
    { intros Hg e Hin. destruct (before_go (main s)).
      - destruct Hgo as [_ Hc]. apply In_calls_of in Hin. now rewrite Hc in Hin.
      - contradiction. }
    unfold sockets_are_fixed. step_cases t a s.
    all: try (exact (conj B1 (conj B2 (conj C1 (conj C2 (conj C3 C4)))))).
    all: try match goal with
             | |- context [match ?e with Some _ => _ | None => _ end] => destruct e
             end.
    all: cbn [in_broadcaster_loop in_listener_loop after_listen before_go In] in *.
    all: try (destruct (before_go (main s)); [destruct Hgo; congruence|]).
    all: try (
      split; [|split; [|split; [|split; [|split]]]];
      [ intros Hl; try discriminate Hl;
        destruct (B1 Hl) as (? & ? & ? & ?); eexists; repeat split; eauto
      | intros Hl; try discriminate Hl;
        destruct (B2 Hl) as (? & ? & ? & ?); eexists; repeat split; eauto
      | intros t' c' b' res' [E | Hin]; [discriminate E | exact (C1 _ _ _ _ Hin)]
      | intros t' c' d' n' addr' err' [E | Hin];
        [discriminate E | exact (C2 _ _ _ _ _ _ Hin)]
      | intros t' raddr' res' [E | Hin]; [discriminate E | exact (C3 _ _ _ Hin)]
      | intros t' laddr' res' [E | Hin]; [discriminate E | exact (C4 _ _ _ Hin)]
      ]; fail).
    all: try (destruct Hgo as [Hg Hc]; rewrite Hg in *;
              cbn [in_broadcaster_loop] in * ).
    all: split; [|split; [|split; [|split; [|split]]]];
      [ intros Hl; try discriminate Hl;
        first [ destruct (B1 Hl) as (? & ? & ? & ?); eexists; repeat split; eauto; fail
              | eexists; repeat split; left; reflexivity ]
      | intros Hl; try discriminate Hl;
        first [ destruct (B2 Hl) as (? & ? & ? & ?); eexists; repeat split; eauto; fail
              | eexists; repeat split; left; reflexivity ]
      | intros t' c' b' res' [E | Hin];
        [ try discriminate E; injection E as <- <- <- <-; repeat split
        | destruct (C1 _ _ _ _ Hin) as (? & ? & ? & ?);
          try discriminate; repeat split; auto ]
      | intros t' c' d' n' addr' err' [E | Hin];
        [ try discriminate E; injection E as <- <- <- <- <- <-; repeat split
        | destruct (C2 _ _ _ _ _ _ Hin) as (? & ? & ?);
          try discriminate; repeat split; auto ]
      | intros t' raddr' res' [E | Hin];
        [ try discriminate E; injection E as <- <- <-; repeat split
        | destruct (C3 _ _ _ Hin) as (? & ?);
          try (exfalso; subst; eapply Hnone; eauto; fail);
          repeat split; auto ]
      | intros t' laddr' res' [E | Hin];
        [ try discriminate E; injection E as <- <- <-; repeat split
        | destruct (C4 _ _ _ Hin) as (? & ? & ?);
          try discriminate; repeat split; auto ]
      ].
Qed.
Lemma goroutine_step_keeps_name (a : Answer) (s : State) :
  name (step Goroutine a s) = name s.
Proof.
  unfold step. destruct (status s); [|reflexivity].
  destruct (goroutine s) as [pc|]; [|reflexivity].
  destruct pc; cbn [goroutine_step]; try reflexivity.
  now destruct (dialed a).
Qed.

(** [name] is assigned once, at line 26, before the goroutine exists. *)
Lemma step_keeps_name (t : Thread) (a : Answer) (s : State) :
  wf s ->
  name (step t a s) = name s \/ calls_of Goroutine (hist s) = [].
Proof.
  intros (Hgo & _). step_cases t a s; auto.
  right. apply Hgo.
Qed.

Lemma writes_follow_sleep (sched : Schedule) :
  always (write_follows_sleep (list_byte_of_string (name (run sched init))))
    (calls_of Goroutine (hist (run sched init))).
Proof.
  induction sched as [|[t a] sched IH] using rev_ind.
  - split; [split; intros; discriminate | exact I].
  - rewrite run_snoc.
    destruct (calls_of_step Goroutine t a (run sched init)) as [E | [-> [e E]]].
    + rewrite E.
      destruct (step_keeps_name t a _ (reachable_wf sched)) as [-> | ->];
        [exact IH|].
      split; [split; intros; discriminate | exact I].
    + rewrite goroutine_step_keeps_name, E. cbn [calls_of Thread_eqb].
      split; [|exact IH].
      pose proof (call_means_running _ _ _ _ E) as Est.
      pose proof (goroutine_call_at a _ _ Est E) as Hcall.
      pose proof (reachable_goroutine_follows_history sched)
        as (_ & _ & _ & _ & G5).
      split.
      * intros c b res h' H. injection H as -> <-.
        destruct (goroutine (run sched init)) as [[]|];
          try discriminate Hcall;
          try (destruct Hcall as (? & Hcall); discriminate Hcall);
          try contradiction.
        injection Hcall as _ -> _. split; [reflexivity|]. now apply G5.
      * intros d h' H. injection H as -> <-.
        destruct (goroutine (run sched init)) as [[]|];
          try discriminate Hcall;
          try (destruct Hcall as (? & Hcall); discriminate Hcall);
          try contradiction.
        now injection Hcall as ->.
Qed.

Lemma after_go_bcast_resolved (pc : MainPC) :
  before_go pc = false -> bcast_resolved pc = true.
Proof. now destruct pc. Qed.

Lemma in_loop_listen_resolved (pc : MainPC) :
  after_listen pc = true -> listen_resolved pc = true.
Proof. now destruct pc. Qed.

Lemma in_loop_after_listen (pc : MainPC) :
  in_listener_loop pc = true -> after_listen pc = true.
Proof. now destruct pc. Qed.

(** Once the goroutine exists, [bCastAddr] is the address the resolution
    of the broadcast string returned. *)
Lemma goroutine_has_bcast_addr (sched : Schedule) :
  goroutine (run sched init) <> None ->
  exists addr,
    bCastAddr (run sched init) = Some addr
    /\ In (Main, EvResolveUDPAddr broadcastAddress (inl addr))
         (hist (run sched init)).
Proof.
  intros Hg.
  pose proof (reachable_wf sched) as (Hgo & _).
  pose proof (reachable_addresses_follow_resolution sched) as (A1 & _).
  destruct (before_go (main (run sched init))) eqn:Eb.
  - now destruct Hgo.
  - now rewrite (after_go_bcast_resolved _ Eb) in A1.
Qed.

(** Once the process has drawn its name, [name] is what line 26 made of the
    number drawn. *)
Lemma goroutine_has_name (sched : Schedule) :
  goroutine (run sched init) <> None ->
  exists r,
    In (Main, EvRandInt r) (hist (run sched init))
    /\ name (run sched init) = "peer-" +++ Itoa r.
Proof.
  intros Hg.
  pose proof (reachable_wf sched) as (Hgo & _).
  pose proof (reachable_name_is_generated (fun _ => True) sched) as Hn.
  unfold name_is_generated in Hn.
  destruct (main (run sched init)); cbn [before_go] in Hgo;
    try (now destruct Hgo);
    (destruct Hn as (t & r & later & Hh & _ & Hname & _);
     [apply Forall_forall; trivial|]);
    exists r; (split; [|exact Hname]);
    rewrite Hh; apply in_or_app; right; now left.
Qed.

Lemma in_loop_goroutine_exists (g : option GoPC) :
  in_broadcaster_loop g = true -> g <> None.
Proof. now destruct g. Qed.

(** The three calls of one round of the broadcaster loop. *)
Lemma broadcaster_round (a1 a2 a3 : Answer) (s : State) :
  goroutine s = Some G47_Sleep ->
  status s = Running ->
  step Goroutine a3 (step Goroutine a2 (step Goroutine a1 s))
  = s |> emit Goroutine (EvSleep Second)
      |> emit Goroutine (EvPrintf "Broadcasting..")
      |> emit Goroutine (EvWrite (gconn s) (list_byte_of_string (name s)) (written a3))
      |> go_goto (match written a3 with
                  | Some e => G50_Printf e
                  | None => G47_Sleep
                  end).
Proof.
  intros Hg Est. destruct s. cbn [goroutine status] in Hg, Est. subst.
  reflexivity.
Qed.

(** ** C4: what the broadcaster writes *)

(** C4: at every moment of every run, each write of the goroutine sends
    exactly the bytes of [name], and the two calls of the goroutine before it
    are the sleep of one second and the "Broadcasting.." line; every sleep is
    one second.  Every write in the history is by the goroutine, carries the
    bytes of the name drawn at line 26 (which decode back to [name]) and goes
    to the socket [net.DialUDP] returned for [bCastAddr].  A running
    goroutine at the top of its loop sleeps, prints and writes, in that
    order. *)
Theorem C4_broadcast_payload_is_name (sched : Schedule) :
  let s := run sched init in
  always (write_follows_sleep (list_byte_of_string (name s)))
    (calls_of Goroutine (hist s))
  /\ (forall t c b res,
        In (t, EvWrite c b res) (hist s) ->
        t = Goroutine
        /\ (exists r, In (Main, EvRandInt r) (hist s)
                      /\ b = list_byte_of_string ("peer-" +++ Itoa r))
        /\ string_of_list_byte b = name s
        /\ exists sock,
            c = Some sock /\ RemoteAddr sock = bCastAddr s
            /\ In (Goroutine, EvDialUDP (bCastAddr s) (inl sock)) (hist s))
  /\ (forall a1 a2 a3,
        goroutine s = Some G47_Sleep ->
        status s = Running ->
        hist (step Goroutine a3 (step Goroutine a2 (step Goroutine a1 s)))
        = (Goroutine, EvWrite (gconn s) (list_byte_of_string (name s)) (written a3))
          :: (Goroutine, EvPrintf "Broadcasting..")
          :: (Goroutine, EvSleep Second) :: hist s).
Proof.
  intros s. subst s. split; [apply writes_follow_sleep | split].
  - intros t c b res Hin.
    pose proof (reachable_sockets_are_fixed sched) as (B1 & _ & C1 & _).
    destruct (C1 _ _ _ _ Hin) as (-> & -> & -> & Hloop).
    destruct (goroutine_has_name sched (in_loop_goroutine_exists _ Hloop))
      as (r & Hr & Hname).
    split; [reflexivity|]. split; [exists r; now rewrite Hname|].
    split; [apply string_of_list_byte_of_string|].
    destruct (B1 Hloop) as (sock & Hs & Hra & Hd). now exists sock.
  - intros a1 a2 a3 Hg Est. now rewrite (broadcaster_round a1 a2 a3 _ Hg Est).
Qed.

(** C4 applied to the first round of the loop after a start-up. *)
Lemma C4_broadcast_payload_is_name_witness :
  hist (run (startup ++ broadcast_once) init)
  = (Goroutine,
     EvWrite (Some (mkUDPConn (Some own_source) (Some limited_broadcast)))
       (list_byte_of_string "peer-5577006791947779410") None)
    :: (Goroutine, EvPrintf "Broadcasting..")
    :: (Goroutine, EvSleep 1000000000) :: hist (run startup init).
Proof.
  assert (Hg : goroutine (run startup init) = Some G47_Sleep)
    by (vm_compute; reflexivity).
  assert (Est : status (run startup init) = Running)
    by (vm_compute; reflexivity).
  pose proof (proj2 (proj2 (C4_broadcast_payload_is_name startup))
                world world world Hg Est) as H.
  rewrite run_app. etransitivity; [exact H|].
  vm_compute. reflexivity.
Defined.

(** ** C8: the addresses and the port *)

Lemma addresses_distinct : broadcastAddress <> listenAddress.
Proof. intros H. vm_compute in H. discriminate H. Qed.

(** C8: the port is 2002, the string resolved for the broadcaster is
    255.255.255.255:2002 and the one for the listener is :2002 (no host: all
    interfaces).  In every run only main resolves, and only these two
    strings, each to at most one address; the only dial is by the goroutine,
    to the address the first string resolved to, and every write goes to a
    socket connected to that address; the only bind is by main, to the
    address the second string resolved to, and every read is from a socket
    bound to that address. *)
Theorem C8_fixed_addresses_and_port (sched : Schedule) :
  let s := run sched init in
  commonPort = 2002
  /\ broadcastAddress = "255.255.255.255:2002"%string
  /\ listenAddress = ":2002"%string
  /\ (forall t ad res,
        In (t, EvResolveUDPAddr ad res) (hist s) ->
        t = Main /\ (ad = broadcastAddress \/ ad = listenAddress))
  /\ (forall ad addr addr',
        In (Main, EvResolveUDPAddr ad (inl addr)) (hist s) ->
        In (Main, EvResolveUDPAddr ad (inl addr')) (hist s) ->
        addr = addr')
  /\ (forall t raddr res,
        In (t, EvDialUDP raddr res) (hist s) ->
        t = Goroutine
        /\ exists addr,
            raddr = Some addr
            /\ In (Main, EvResolveUDPAddr broadcastAddress (inl addr)) (hist s))
  /\ (forall t c b res,
        In (t, EvWrite c b res) (hist s) ->
        exists sock addr,
          c = Some sock /\ RemoteAddr sock = Some addr
          /\ In (Main, EvResolveUDPAddr broadcastAddress (inl addr)) (hist s))
  /\ (forall t laddr res,
        In (t, EvListenUDP laddr res) (hist s) ->
        t = Main
        /\ exists addr,
            laddr = Some addr
            /\ In (Main, EvResolveUDPAddr listenAddress (inl addr)) (hist s))
  /\ (forall t c d n from err,
        In (t, EvReadFromUDP c d n from err) (hist s) ->
        exists sock addr,
          c = Some sock /\ LocalAddr sock = Some addr
          /\ In (Main, EvResolveUDPAddr listenAddress (inl addr)) (hist s)).
Proof.
  intros s. subst s.
  pose proof (reachable_addresses_follow_resolution sched) as (A1 & A2 & A3).
  pose proof (reachable_sockets_are_fixed sched) as (B1 & B2 & C1 & C2 & C3 & C4).
  pose proof (reachable_wf sched) as (Hgo & _).
  assert (Hnone : forall e, In (Goroutine, e) (hist (run sched init)) ->
                            goroutine (run sched init) <> None).
  { intros e Hin Hg. destruct (before_go (main (run sched init))).
    - destruct Hgo as [_ Hc]. apply In_calls_of in Hin. now rewrite Hc in Hin.
    - contradiction. }
  do 3 (split; [reflexivity|]).
  split; [|split; [|split; [|split; [|split]]]].
  - intros t ad res Hin. destruct (A3 _ _ _ Hin) as [-> [[-> _] | [-> _]]]; auto.
  - intros ad addr addr' H1 H2.
    destruct (A3 _ _ _ H1) as [_ [[E1 Hb1] | [E1 Hl1]]];
      destruct (A3 _ _ _ H2) as [_ [[E2 Hb2] | [E2 Hl2]]].
    + specialize (Hb1 _ eq_refl). specialize (Hb2 _ eq_refl). congruence.
    + exfalso. apply addresses_distinct. congruence.
    + exfalso. apply addresses_distinct. congruence.
    + specialize (Hl1 _ eq_refl). specialize (Hl2 _ eq_refl). congruence.
  - intros t raddr res Hin. destruct (C3 _ _ _ Hin) as [-> ->].
    split; [reflexivity|].
    apply (goroutine_has_bcast_addr sched). eapply Hnone; eassumption.
  - intros t c b res Hin. destruct (C1 _ _ _ _ Hin) as (-> & _ & -> & Hloop).
    destruct (B1 Hloop) as (sock & Hs & Hra & _).
    destruct (goroutine_has_bcast_addr sched (in_loop_goroutine_exists _ Hloop))
      as (addr & Hb & Hr).
    exists sock, addr. repeat split; congruence.
  - intros t laddr res Hin. destruct (C4 _ _ _ Hin) as (-> & -> & Hal).
    split; [reflexivity|].
    now rewrite (in_loop_listen_resolved _ Hal) in A2.
  - intros t c d n from err Hin. destruct (C2 _ _ _ _ _ _ Hin) as (-> & -> & Hloop).
    destruct (B2 Hloop) as (sock & Hs & Hla & _).
    rewrite (in_loop_listen_resolved _ (in_loop_after_listen _ Hloop)) in A2.
    destruct A2 as (addr & Hl & Hr).
    exists sock, addr. repeat split; congruence.
Qed.

(** C8 applied to the dial and the write of a run in the world [world]. *)
Lemma C8_fixed_addresses_and_port_witness :
  exists sock addr,
    Some (mkUDPConn (Some own_source) (Some limited_broadcast)) = Some sock
    /\ RemoteAddr sock = Some addr
    /\ In (Main, EvResolveUDPAddr broadcastAddress (inl addr))
         (hist (run (startup ++ broadcast_once) init)).
Proof.
  apply (proj1 (proj2 (proj2 (proj2 (proj2 (proj2 (proj2
           (C8_fixed_addresses_and_port (startup ++ broadcast_once))))))))
           Goroutine _ (list_byte_of_string "peer-5577006791947779410") None).
  vm_compute. left. reflexivity.
Defined.

(** C2 applied to a write that fails in the first round of the broadcaster
    loop and to a read that fails in the first round of the listener loop,
    call by call: the goroutine makes the failed write and prints the error
    and is back at the sleep; main makes the failed read, prints the
    "Received" line with the empty payload and the nil sender, prints the
    error and is back at the read; the process is running throughout. *)
Lemma C2_loop_errors_are_logged_not_fatal_witness :
  (step Goroutine world_unwritten (run at_write init)
   = run at_write init
       |> emit Goroutine
            (EvWrite (Some (mkUDPConn (Some own_source) (Some limited_broadcast)))
               (list_byte_of_string "peer-5577006791947779410")
               (Some "sendto: network is down"%string))
       |> go_goto (G50_Printf "sendto: network is down"%string))
  /\ (step Goroutine world (run (at_write ++ [(Goroutine, world_unwritten)]) init)
      = run (at_write ++ [(Goroutine, world_unwritten)]) init
          |> emit Goroutine (EvPrintf "Error: sendto: network is down")
          |> go_goto G47_Sleep)
  /\ (step Main world_unread_pending (run startup init)
      = run startup init
          |> emit Main
               (EvReadFromUDP (Some (mkUDPConn (Some all_interfaces) None))
                  [] 0 None (Some "use of closed network connection"%string))
          |> set_buf (make 1024)
          |> goto (M86_Printf 0 None (Some "use of closed network connection"%string)))
  /\ (step Main world (run (startup ++ [(Main, world_unread_pending)]) init)
      = run (startup ++ [(Main, world_unread_pending)]) init
          |> emit Main (EvPrintf "Received '' from <nil>")
          |> goto (M88_Printf "use of closed network connection"%string))
  /\ (step Main world
        (run (startup ++ [(Main, world_unread_pending); (Main, world)]) init)
      = run (startup ++ [(Main, world_unread_pending); (Main, world)]) init
          |> emit Main (EvPrintf "Error: use of closed network connection")
          |> goto M85_Read)
  /\ status (step Main world
               (run (startup ++ [(Main, world_unread_pending); (Main, world)]) init))
     = Running.
Proof.
  assert (Hg : goroutine (run at_write init) = Some G49_Write)
    by (vm_compute; reflexivity).
  assert (Est1 : status (run at_write init) = Running)
    by (vm_compute; reflexivity).
  assert (Hgc : gconn (run at_write init)
                = Some (mkUDPConn (Some own_source) (Some limited_broadcast)))
    by (vm_compute; reflexivity).
  assert (Hname : name (run at_write init) = "peer-5577006791947779410"%string)
    by (vm_compute; reflexivity).
  assert (Hc2 : calls_of Goroutine
                  (hist (run (at_write ++ [(Goroutine, world_unwritten)]) init))
                = EvWrite (Some (mkUDPConn (Some own_source) (Some limited_broadcast)))
                    (list_byte_of_string "peer-5577006791947779410")
                    (Some "sendto: network is down"%string)
                  :: calls_of Goroutine (hist (run at_write init)))
    by (vm_compute; reflexivity).
  assert (Est2 : status (run (at_write ++ [(Goroutine, world_unwritten)]) init)
                 = Running)
    by (vm_compute; reflexivity).
  assert (Hm : main (run startup init) = M85_Read) by (vm_compute; reflexivity).
  assert (Est3 : status (run startup init) = Running) by (vm_compute; reflexivity).
  assert (Hconn : conn (run startup init)
                  = Some (mkUDPConn (Some all_interfaces) None))
    by (vm_compute; reflexivity).
  assert (Hbuf : buf (run startup init) = make 1024) by (vm_compute; reflexivity).
  assert (Hc4 : calls_of Main
                  (hist (run (startup ++ [(Main, world_unread_pending)]) init))
                = EvReadFromUDP (Some (mkUDPConn (Some all_interfaces) None))
                    [] 0 None (Some "use of closed network connection"%string)
                  :: calls_of Main (hist (run startup init)))
    by (vm_compute; reflexivity).
  assert (Est4 : status (run (startup ++ [(Main, world_unread_pending)]) init)
                 = Running)
    by (vm_compute; reflexivity).
  assert (Hc5 : calls_of Main
                  (hist (run (startup ++ [(Main, world_unread_pending);
                                          (Main, world)]) init))
                = EvPrintf "Received '' from <nil>"
                  :: EvReadFromUDP (Some (mkUDPConn (Some all_interfaces) None))
                       [] 0 None (Some "use of closed network connection"%string)
                  :: calls_of Main (hist (run startup init)))
    by (vm_compute; reflexivity).
  assert (Est5 : status (run (startup ++ [(Main, world_unread_pending);
                                          (Main, world)]) init)
                 = Running)
    by (vm_compute; reflexivity).
  assert (Hloop : in_listener_loop
                    (main (run (startup ++ [(Main, world_unread_pending);
                                            (Main, world)]) init)) = true)
    by (vm_compute; reflexivity).
  destruct (C2_loop_errors_are_logged_not_fatal at_write)
    as (_ & _ & _ & _ & W1 & _).
  destruct (C2_loop_errors_are_logged_not_fatal
              (at_write ++ [(Goroutine, world_unwritten)]))
    as (_ & _ & _ & _ & _ & W2 & _).
  destruct (C2_loop_errors_are_logged_not_fatal startup)
    as (_ & _ & _ & _ & _ & _ & R1 & _).
  destruct (C2_loop_errors_are_logged_not_fatal
              (startup ++ [(Main, world_unread_pending)]))
    as (_ & _ & _ & _ & _ & _ & _ & R2 & _).
  destruct (C2_loop_errors_are_logged_not_fatal
              (startup ++ [(Main, world_unread_pending); (Main, world)]))
    as (_ & _ & _ & _ & _ & _ & _ & _ & R3 & L & _).
  cbv zeta in *.
  split; [|split; [|split; [|split; [|split]]]].
  - rewrite (W1 world_unwritten _ Hg Est1 eq_refl). now rewrite Hgc, Hname.
  - exact (W2 _ _ _ _ world Hc2 Est2).
  - rewrite (R1 world_unread_pending _ Hm Est3 eq_refl). now rewrite Hconn, Hbuf.
  - exact (R2 _ _ _ _ _ _ world Hc4 Est4).
  - exact (R3 _ _ _ _ _ _ _ world Hc5 Est5).
  - exact (proj1 (L world Hloop Est5)).
Defined.

(** ** Further properties of main *)

Lemma reachable_name_is_announced (sched : Schedule) :
  name_is_announced (run sched init).
Proof.
  revert sched. apply run_invariant.
  - intros H. discriminate H.
  - intros t a s Hinv. unfold name_is_announced in *.
    step_cases t a s.
    all: try exact Hinv.
    all: try match goal with
             | |- context [match ?e with Some _ => _ | None => _ end] => destruct e
             end.
    all: cbn [announced In] in *.
    all: try (intros E; discriminate E).
    all: try (intros E; right; apply Hinv; first [exact E | reflexivity]).
    intros _. now left.
Qed.

(** The history of a run, by its first three calls. *)
Lemma history_shape (Q : Z -> Prop) (sched : Schedule) :
  Forall (fun ta => Q (rand_int (snd ta))) sched ->
  let s := run sched init in
  (happened is_rand_int (hist s) = false /\ (List.length (hist s) < 3)%nat)
  \/ exists t r later,
      hist s = later ++ [(Main, EvRandInt r); (Main, EvSeed t); (Main, EvNow t)]
      /\ happened is_rand_int later = false
      /\ name s = "peer-" +++ Itoa r
      /\ Q r.
Proof.
  intros HQ s. subst s.
  pose proof (reachable_name_is_generated Q sched HQ) as Hn.
  revert Hn. generalize (run sched init) as s. intros s Hn.
  unfold name_is_generated in Hn.
  destruct (main s); try (right; exact Hn); left.
  - rewrite Hn. split; [reflexivity | cbn; lia].
  - rewrite Hn. split; [reflexivity | cbn; lia].
  - destruct Hn as [t0 ->]. split; [reflexivity | cbn; lia].
Qed.

(** The number drawn at line 26 is the one [name] is made of. *)
Lemma drawn_number_is_name (Q : Z -> Prop) (sched : Schedule) (t : Thread) (r : Z) :
  Forall (fun ta => Q (rand_int (snd ta))) sched ->
  In (t, EvRandInt r) (hist (run sched init)) ->
  name (run sched init) = "peer-" +++ Itoa r /\ Q r.
Proof.
  intros HQ Hin.
  destruct (history_shape Q sched HQ)
    as [[Hno _] | (t0 & r0 & later & Hh & Hl & Hname & Hq)].
  - now apply (not_happened_In _ _ _ _ Hno) in Hin.
  - rewrite Hh in Hin. apply in_app_or in Hin. destruct Hin as [Hin | Hin].
    + now apply (not_happened_In _ _ _ _ Hl) in Hin.
    + destruct Hin as [E | [E | [E | []]]]; try discriminate E.
      injection E as _ <-. now split.
Qed.

(** X1: every payload the goroutine writes is the name the process
    announced in its "I am" line. *)
Theorem X1_broadcast_name_was_announced (sched : Schedule) t c b res :
  In (t, EvWrite c b res) (hist (run sched init)) ->
  In (Main, EvPrintf ("I am " +++ string_of_list_byte b)) (hist (run sched init)).
Proof.
  intros Hin.
  pose proof (reachable_sockets_are_fixed sched) as (_ & _ & C1 & _).
  destruct (C1 _ _ _ _ Hin) as (_ & -> & _ & Hloop).
  rewrite string_of_list_byte_of_string.
  apply reachable_name_is_announced.
  pose proof (reachable_wf sched) as (Hgo & _).
  destruct (main (run sched init)); cbn [before_go] in Hgo;
    try reflexivity; destruct Hgo as [Hg _]; rewrite Hg in Hloop;
    discriminate Hloop.
Qed.

(** X1 applied to the first broadcast after a start-up. *)
Lemma X1_broadcast_name_was_announced_witness :
  In (Main, EvPrintf "I am peer-5577006791947779410")
    (hist (run (startup ++ broadcast_once) init)).
Proof.
  apply (X1_broadcast_name_was_announced (startup ++ broadcast_once) Goroutine
           (Some (mkUDPConn (Some own_source) (Some limited_broadcast)))
           (list_byte_of_string "peer-5577006791947779410") None).
  vm_compute. left. reflexivity.
Defined.

(** X2: every payload the goroutine writes is at most 26 bytes long (the five
    of [peer-] and at most 21 of the number), so a read into a buffer of
    1024 bytes, as the listener's, copies all of it. *)
Theorem X2_broadcast_fits_receive_buffer (sched : Schedule) t c b res :
  In (t, EvWrite c b res) (hist (run sched init)) ->
  (List.length b <= 26)%nat
  /\ forall buffer,
      List.length buffer = 1024%nat ->
      fst (ReadFromUDP buffer b) = Z.of_nat (List.length b)
      /\ firstn (List.length b) (snd (ReadFromUDP buffer b)) = b.
Proof.
  intros Hin.
  pose proof (reachable_sockets_are_fixed sched) as (_ & _ & C1 & _).
  destruct (C1 _ _ _ _ Hin) as (_ & -> & _ & Hloop).
  destruct (goroutine_has_name sched (in_loop_goroutine_exists _ Hloop))
    as (r & _ & ->).
  assert (Hlen : (List.length (list_byte_of_string ("peer-" +++ Itoa r)) <= 26)%nat).
  { rewrite length_list_byte_of_string. pose proof (Itoa_length r).
    cbn [String.append String.length]. lia. }
  split; [exact Hlen|].
  intros buffer Hb. unfold ReadFromUDP. cbn [fst snd]. rewrite Hb.
  replace (Nat.min (List.length (list_byte_of_string ("peer-" +++ Itoa r))) 1024)
    with (List.length (list_byte_of_string ("peer-" +++ Itoa r))) by lia.
  split; [reflexivity|].
  rewrite firstn_all, firstn_app, firstn_all, Nat.sub_diag, firstn_O.
  apply app_nil_r.
Qed.

(** X2 applied to the first broadcast after a start-up. *)
Lemma X2_broadcast_fits_receive_buffer_witness :
  (List.length (list_byte_of_string "peer-5577006791947779410") <= 26)%nat.
Proof.
  apply (X2_broadcast_fits_receive_buffer (startup ++ broadcast_once) Goroutine
           (Some (mkUDPConn (Some own_source) (Some limited_broadcast)))
           (list_byte_of_string "peer-5577006791947779410") None).
  vm_compute. left. reflexivity.
Defined.

(** X3: two processes that drew different numbers (non-negative [int]s)
    never broadcast the same payload. *)
Theorem X3_distinct_numbers_distinct_payloads (sched1 sched2 : Schedule)
    t1 r1 t2 r2 u1 c1 b1 res1 u2 c2 b2 res2 :
  Forall (fun ta => non_negative_int (rand_int (snd ta))) sched1 ->
  Forall (fun ta => non_negative_int (rand_int (snd ta))) sched2 ->
  In (t1, EvRandInt r1) (hist (run sched1 init)) ->
  In (t2, EvRandInt r2) (hist (run sched2 init)) ->
  In (u1, EvWrite c1 b1 res1) (hist (run sched1 init)) ->
  In (u2, EvWrite c2 b2 res2) (hist (run sched2 init)) ->
  r1 <> r2 ->
  b1 <> b2.
Proof.
  intros Hq1 Hq2 Hr1 Hr2 Hw1 Hw2 Hneq Hb.
  destruct (drawn_number_is_name _ sched1 t1 r1 Hq1 Hr1) as [Hn1 Hp1].
  destruct (drawn_number_is_name _ sched2 t2 r2 Hq2 Hr2) as [Hn2 Hp2].
  pose proof (reachable_sockets_are_fixed sched1) as (_ & _ & C1 & _).
  pose proof (reachable_sockets_are_fixed sched2) as (_ & _ & C1' & _).
  destruct (C1 _ _ _ _ Hw1) as (_ & E1 & _).
  destruct (C1' _ _ _ _ Hw2) as (_ & E2 & _).
  rewrite E1, E2, Hn1, Hn2 in Hb.
  apply (f_equal string_of_list_byte) in Hb.
  rewrite !string_of_list_byte_of_string in Hb.
  apply (f_equal peer_number) in Hb.
  rewrite (proj2 (peer_name_pattern r1 Hp1)), (proj2 (peer_name_pattern r2 Hp2)) in Hb.
  congruence.
Qed.

(** X3 applied to two processes, in [world] and in [other_world]. *)
Lemma X3_distinct_numbers_distinct_payloads_witness :
  list_byte_of_string "peer-5577006791947779410"
  <> list_byte_of_string "peer-8674665223082153551".
Proof.
  apply (X3_distinct_numbers_distinct_payloads
           (startup ++ broadcast_once) other_startup
           Main 5577006791947779410 Main 8674665223082153551
           Goroutine (Some (mkUDPConn (Some own_source) (Some limited_broadcast)))
           (list_byte_of_string "peer-5577006791947779410") None
           Goroutine (Some (mkUDPConn (Some own_source) (Some limited_broadcast)))
           (list_byte_of_string "peer-8674665223082153551") None).
  - repeat constructor; cbn; lia.
  - repeat constructor; cbn; lia.
  - vm_compute. tauto.
  - vm_compute. tauto.
  - vm_compute. left. reflexivity.
  - vm_compute. left. reflexivity.
  - discriminate.
Defined.

Lemma addresses_differ' : String.eqb broadcastAddress listenAddress = false.
Proof. reflexivity. Qed.

Lemma reachable_startup_calls_made_once (sched : Schedule) :
  startup_calls_made_once (run sched init).
Proof.
  revert sched. apply run_invariant_reach.
  - repeat split.
  - intros sched t a. pose proof (reachable_wf sched) as Hwf.
    revert Hwf. generalize (run sched init) as s.
    intros s (Hgo & _) (H1 & H2 & H3 & H4 & H5).
    unfold startup_calls_made_once, count in *. step_cases t a s.
    all: try (repeat split; assumption).
    all: try match goal with
             | |- context [match ?e with Some _ => _ | None => _ end] => destruct e
             end.
    all: cbn [filter snd is_go is_dial is_listen is_resolve_of before_go
              dial_called after_listen bcast_resolve_called listen_resolve_called]
           in *.
    all: rewrite ?addresses_differ, ?addresses_differ', ?String.eqb_refl.
    all: cbn [List.length].
    all: try (destruct (before_go (main s)); [destruct Hgo; congruence|]).
    all: try (destruct Hgo as [Hg _]; rewrite Hg in *; cbn [dial_called] in * ).
    all: repeat split; congruence.
Qed.

Lemma In_count (p : event -> bool) (h : list (Thread * event)) t e :
  In (t, e) h -> p e = true -> (1 <= count p h)%nat.
Proof.
  unfold count. intros Hin Hp.
  assert (Hf : In (t, e) (filter (fun te => p (snd te)) h))
    by (apply filter_In; now split).
  destruct (filter (fun te => p (snd te)) h); [destruct Hf | cbn; lia].
Qed.

(** X4: no start-up call is ever repeated: in every run the [go] statement, the
    dial, the bind and each of the two resolutions happen at most once; and
    the goroutine is started only after the broadcast address has resolved. *)
Theorem X4_startup_calls_are_not_repeated (sched : Schedule) :
  let s := run sched init in
  (count is_go (hist s) <= 1)%nat
  /\ (count is_dial (hist s) <= 1)%nat
  /\ (count is_listen (hist s) <= 1)%nat
  /\ (count (is_resolve_of broadcastAddress) (hist s) <= 1)%nat
  /\ (count (is_resolve_of listenAddress) (hist s) <= 1)%nat
  /\ (forall t, In (t, EvGo) (hist s) ->
        exists addr,
          In (Main, EvResolveUDPAddr broadcastAddress (inl addr)) (hist s)).
Proof.
  intros s. subst s.
  pose proof (reachable_startup_calls_made_once sched) as (H1 & H2 & H3 & H4 & H5).
  repeat split.
  - rewrite H1. destruct (before_go _); lia.
  - rewrite H2. destruct (dial_called _); lia.
  - rewrite H3. destruct (after_listen _); lia.
  - rewrite H4. destruct (bcast_resolve_called _); lia.
  - rewrite H5. destruct (listen_resolve_called _); lia.
  - intros t Hin. apply (In_count is_go) in Hin; [|reflexivity].
    pose proof (reachable_addresses_follow_resolution sched) as (A1 & _).
    destruct (before_go (main (run sched init))) eqn:Eb.
    + rewrite H1 in Hin. lia.
    + rewrite (after_go_bcast_resolved _ Eb) in A1.
      destruct A1 as (addr & _ & Hr). now exists addr.
Qed.

(** X4 applied to the [go] statement of a run. *)
Lemma X4_startup_calls_are_not_repeated_witness :
  exists addr,
    In (Main, EvResolveUDPAddr broadcastAddress (inl addr))
      (hist (run until_go init)).
Proof.
  apply (proj2 (proj2 (proj2 (proj2 (proj2
           (X4_startup_calls_are_not_repeated until_go))))) Main).
  vm_compute. left. reflexivity.
Defined.

Lemma reachable_exit_is_fatalf (sched : Schedule) :
  exit_is_fatalf (run sched init).
Proof.
  revert sched. apply run_invariant_reach.
  - reflexivity.
  - intros sched t a. pose proof (reachable_wf sched) as Hwf.
    revert Hwf. generalize (run sched init) as s.
    intros s (_ & Hret & Hbuf & Hn & _) Hinv.
    unfold exit_is_fatalf, happened in *. step_cases t a s.
    all: try match goal with
             | |- context [match ?e with Some _ => _ | None => _ end] => destruct e
             end.
    all: try rewrite Est.
    all: try (cbn [existsb snd is_fatalf orb];
              first [ exact Hinv
                    | split; [reflexivity|]; eexists; eexists; eexists;
                      split; [reflexivity | exact Hinv] ]).
    all: try congruence.
    exfalso. specialize (Hbuf eq_refl). specialize (Hn _ _ _ eq_refl).
    rewrite slice_in_bounds in Heqo by (rewrite Hbuf; lia). discriminate.
Qed.

Lemma not_happened_calls_of (p : event -> bool) (t : Thread)
    (h : list (Thread * event)) :
  happened p h = false -> existsb p (calls_of t h) = false.
Proof.
  unfold happened. induction h as [|[u e] h IH]; [reflexivity|].
  cbn [existsb calls_of snd]. intros H. apply orb_false_elim in H as [H1 H2].
  destruct (Thread_eqb t u); cbn [existsb]; rewrite ?H1; now apply IH.
Qed.

Lemma not_happened_split (p : event -> bool) (t : Thread)
    (h : list (Thread * event)) (later earlier : list event) (e : event) :
  happened p h = false ->
  calls_of t h = later ++ e :: earlier ->
  p e = false /\ existsb p earlier = false.
Proof.
  intros H Hc. apply (not_happened_calls_of p t) in H.
  rewrite Hc, existsb_app in H. cbn [existsb] in H.
  apply orb_false_elim in H as [_ H]. now apply orb_false_elim in H.
Qed.

(** X5: the process exits only through [log.Fatalf]: as long as no thread
    has called it the process is running; once the process has exited its
    status is 1 and a fatal line is in its history; and the fatal line of a
    thread is the last call of that thread and its only fatal line. *)
Theorem X5_exit_only_after_fatalf (sched : Schedule) :
  let s := run sched init in
  (happened is_fatalf (hist s) = false -> status s = Running)
  /\ (forall c, status s = Exited c ->
        c = 1 /\ happened is_fatalf (hist s) = true)
  /\ (forall t line later earlier,
        calls_of t (hist s) = later ++ EvFatalf line :: earlier ->
        later = [] /\ existsb is_fatalf earlier = false).
Proof.
  intros s. subst s.
  pose proof (reachable_exit_is_fatalf sched) as Hinv.
  unfold exit_is_fatalf in Hinv.
  destruct (status (run sched init)) as [|c0].
  - split; [reflexivity|]. split; [intros c E; discriminate E|].
    intros t line later earlier Hc.
    destruct (not_happened_split _ _ _ _ _ _ Hinv Hc) as [E _]. discriminate E.
  - destruct Hinv as (-> & t0 & line0 & h & Hh & Hno). rewrite Hh.
    split; [intros E; discriminate E|].
    split; [intros c E; injection E as <-; split; reflexivity|].
    intros t line later earlier. cbn [calls_of].
    destruct (Thread_eqb t t0).
    + destruct later as [|e later]; cbn [app]; intros Hc; injection Hc as _ Hc.
      * split; [reflexivity|]. rewrite <- Hc.
        now apply not_happened_calls_of.
      * destruct (not_happened_split _ _ _ _ _ _ Hno Hc) as [E _]. discriminate E.
    + intros Hc.
      destruct (not_happened_split _ _ _ _ _ _ Hno Hc) as [E _]. discriminate E.
Qed.

(** X5 applied to the run in which the listen address does not resolve. *)
Lemma X5_exit_only_after_fatalf_witness :
  1 = 1 /\ happened is_fatalf (hist (run listen_unresolved init)) = true.
Proof.
  apply (proj1 (proj2 (X5_exit_only_after_fatalf listen_unresolved)) 1).
  vm_compute. reflexivity.
Defined.

Lemma reachable_startup_follows_program (sched : Schedule) :
  startup_follows_program (run sched init).
Proof.
  revert sched. apply run_invariant.
  - unfold startup_follows_program; cbn.
    repeat split; intros; discriminate.
  - intros t a s (M1 & M2 & M3 & G0 & M4 & M5 & F).
    unfold startup_follows_program. step_cases t a s.
    all: try rewrite Est.
    all: try (exact (conj M1 (conj M2 (conj M3 (conj G0 (conj M4 (conj M5 F))))))).
    all: cbn [calls_of Thread_eqb].
    all: try match goal with
             | |- context [match ?e with Some _ => _ | None => _ end] => destruct e
             end.
    all: try (destruct (F eq_refl) as (F1 & F2 & F3 & F4)).
    all: split; [|split; [|split; [|split; [|split; [|split]]]]].
    all: try assumption.
    all: try (intros E; discriminate E).
    all: try (intros _; eexists; reflexivity).
    all: try (intros ad res h H; inversion H; subst; clear H;
              first [ left; repeat split; intros; congruence
                    | right; repeat split; intros; congruence ]).
    all: try (intros laddr res h H; inversion H; subst; reflexivity).
    all: try (intros _; split; [|split; [|split]]; intros ? E;
              first [ discriminate E
                    | injection E as <-; eexists; reflexivity
                    | injection E as <-; eexists; eexists; reflexivity
                    | eauto ]).
Qed.

(** Where a thread is when it calls [log.Fatalf], and with which line. *)
Lemma fatalf_call_at (t : Thread) (a : Answer) (s : State) (line : string) :
  status s = Running ->
  hist (step t a s) = (t, EvFatalf line) :: hist s ->
  match t with
  | Main =>
      (exists err, main s = M33_Fatalf err
                   /\ line = "Error: Failed to resolve broadcast address: " +++ err)
      \/ (exists err, main s = M62_Fatalf err
                      /\ line = "Error: Failed to resolve listen address: " +++ err)
      \/ (exists err, main s = M70_Fatalf err
                      /\ line = "Error: Failed to listen: " +++ err)
  | Goroutine =>
      exists err, goroutine s = Some (G43_Fatalf err)
                  /\ line = "Error: Failed to dial: " +++ err
  end.
Proof.
  intros Est. unfold step. rewrite Est. destruct t.
  - unfold main_step, recvfrom, ReadFromUDP.
    destruct (main s); state_simpl;
      repeat match goal with
             | |- context [match resolved a with _ => _ end] => destruct (resolved a)
             | |- context [match read_err a with _ => _ end] => destruct (read_err a)
             | |- context [match listened a with _ => _ end] => destruct (listened a)
             | |- context [match deferred s with _ => _ end] => destruct (deferred s)
             | |- context [match slice ?b ?lo ?hi with _ => _ end] =>
                 destruct (slice b lo hi)
             end;
      state_simpl; intros H; inversion H; subst; eauto 6.
  - destruct (goroutine s) as [[]|]; cbn [goroutine_step];
      try destruct (dialed a); state_simpl; intros H;
      try (inversion H; subst; eauto; fail).
    all: apply (f_equal (@List.length _)) in H; cbn in H; lia.
Qed.

(** Where a thread is when it makes a call to the network, and the line
    that announces that call. *)
Lemma network_call_at (t : Thread) (a : Answer) (s : State) (e : event)
    (line : string) :
  status s = Running ->
  hist (step t a s) = (t, e) :: hist s ->
  announcement e = Some line ->
  match t with
  | Main =>
      (main s = M31_Resolve /\ line = "Resolving broadcast address.."%string)
      \/ (main s = M60_Resolve /\ line = "Resolving listen address.."%string)
      \/ (main s = M68_Listen /\ line = "Beginning to listen.."%string)
  | Goroutine =>
      (goroutine s = Some G41_Dial /\ line = "Dialing broadcast address.."%string)
      \/ (goroutine s = Some G49_Write /\ line = "Broadcasting.."%string)
  end.
Proof.
  intros Est. unfold step. rewrite Est. destruct t.
  - unfold main_step, recvfrom, ReadFromUDP.
    destruct (main s); state_simpl;
      repeat match goal with
             | |- context [match resolved a with _ => _ end] => destruct (resolved a)
             | |- context [match read_err a with _ => _ end] => destruct (read_err a)
             | |- context [match listened a with _ => _ end] => destruct (listened a)
             | |- context [match deferred s with _ => _ end] => destruct (deferred s)
             | |- context [match slice ?b ?lo ?hi with _ => _ end] =>
                 destruct (slice b lo hi)
             end;
      state_simpl; intros H; injection H as <-; cbn [announcement];
      rewrite ?addresses_differ, ?String.eqb_refl;
      intros Ha; try discriminate Ha; injection Ha as <-; auto.
  - destruct (goroutine s) as [[]|]; cbn [goroutine_step];
      try destruct (dialed a); state_simpl; intros H;
      try (injection H as <-; cbn [announcement];
           intros Ha; try discriminate Ha; injection Ha as <-; auto).
    all: apply (f_equal (@List.length _)) in H; cbn in H; lia.
Qed.

Lemma fatal_lines_name_failures (t : Thread) (sched : Schedule) :
  always fatalf_names_failure (calls_of t (hist (run sched init))).
Proof.
  revert sched. apply always_calls.
  - intros line h' H. discriminate H.
  - intros sched a e Hstep line h' H. injection H as -> <-.
    pose proof (call_means_running _ _ _ _ Hstep) as Est.
    pose proof (fatalf_call_at _ _ _ _ Est Hstep) as Hat.
    pose proof (reachable_startup_follows_program sched)
      as (_ & _ & _ & _ & _ & _ & F).
    destruct (F Est) as (F1 & F2 & F3 & F4).
    destruct t.
    + destruct Hat as [(err & Hpc & ->) | [(err & Hpc & ->) | (err & Hpc & ->)]].
      * destruct (F1 _ Hpc) as [h ->]. eexists; eexists. split; [reflexivity|].
        cbn [fatal_line]. now rewrite String.eqb_refl.
      * destruct (F2 _ Hpc) as [h ->]. eexists; eexists. split; [reflexivity|].
        cbn [fatal_line]. now rewrite addresses_differ.
      * destruct (F3 _ Hpc) as (laddr & h & ->). eexists; eexists.
        split; reflexivity.
    + destruct Hat as (err & Hpc & ->).
      destruct (F4 _ Hpc) as (raddr & h & ->). eexists; eexists.
      split; reflexivity.
Qed.

(** X6: every fatal line, in every run, comes directly after the resolution,
    dial or bind that failed, in the thread that made that call, and is the
    line the source has for that call followed by the text of its error; and
    a running thread whose newest call is such a failure calls [log.Fatalf]
    with that line next, which ends the process with status 1. *)
Theorem X6_fatal_line_names_failed_call (sched : Schedule) (t : Thread) :
  let s := run sched init in
  always fatalf_names_failure (calls_of t (hist s))
  /\ (forall e h line a,
        calls_of t (hist s) = e :: h ->
        fatal_line e = Some line ->
        status s = Running ->
        step t a s = s |> emit t (EvFatalf line) |> exit 1).
Proof.
  intros s. subst s. split; [apply fatal_lines_name_failures|].
  intros e h line a Hc Hline Est.
  pose proof (reachable_startup_follows_program sched)
    as (_ & _ & _ & _ & M4 & M5 & _).
  pose proof (reachable_goroutine_follows_history sched) as (G1 & _).
  pose proof (reachable_addresses_follow_resolution sched) as (_ & _ & A3).
  pose proof (reachable_sockets_are_fixed sched) as (_ & _ & _ & _ & C3 & C4).
  assert (Hin : In (t, e) (hist (run sched init)))
    by (apply In_calls_of; rewrite Hc; now left).
  revert M4 M5 G1 A3 C3 C4 Hc Hin Est.
  generalize (run sched init) as s. intros s M4 M5 G1 A3 C3 C4 Hc Hin Est.
  destruct e as [| | | | |ad [addr|err]| |raddr [c|err]| | |laddr [c|err]| | | |];
    try discriminate Hline; cbn [fatal_line] in Hline; injection Hline as <-.
  - destruct (A3 _ _ _ Hin) as [-> _].
    destruct (M4 _ _ _ Hc) as [(-> & Hpc & _) | (-> & Hpc & _)];
      unfold step; rewrite Est; unfold main_step; rewrite Hpc;
      rewrite ?String.eqb_refl, ?addresses_differ; reflexivity.
  - destruct (C3 _ _ _ Hin) as [-> _].
    unfold step. rewrite Est, (G1 _ _ _ Hc). reflexivity.
  - destruct (C4 _ _ _ Hin) as (-> & _).
    unfold step. rewrite Est. unfold main_step. now rewrite (M5 _ _ _ Hc).
Qed.

(** X6 applied to a dial that fails. *)
Lemma X6_fatal_line_names_failed_call_witness :
  step Goroutine world (run dial_fails init)
  = run dial_fails init
      |> emit Goroutine (EvFatalf "Error: Failed to dial: network is unreachable")
      |> exit 1.
Proof.
  assert (Hc : calls_of Goroutine (hist (run dial_fails init))
               = EvDialUDP (Some limited_broadcast) (inr "network is unreachable"%string)
                 :: [EvPrintf "Dialing broadcast address.."])
    by (vm_compute; reflexivity).
  assert (Est : status (run dial_fails init) = Running)
    by (vm_compute; reflexivity).
  exact (proj2 (X6_fatal_line_names_failed_call dial_fails Goroutine)
           _ _ _ world Hc eq_refl Est).
Defined.

Lemma network_calls_are_announced (t : Thread) (sched : Schedule) :
  always call_is_announced (calls_of t (hist (run sched init))).
Proof.
  revert sched. apply always_calls.
  - intros e line h' H. discriminate H.
  - intros sched a e Hstep e' line h' H Ha. injection H as <- <-.
    pose proof (call_means_running _ _ _ _ Hstep) as Est.
    pose proof (network_call_at _ _ _ _ _ Est Hstep Ha) as Hat.
    pose proof (reachable_startup_follows_program sched)
      as (M1 & M2 & M3 & G0 & _).
    pose proof (reachable_goroutine_follows_history sched)
      as (_ & _ & _ & _ & G5).
    destruct t.
    + destruct Hat as [[Hpc ->] | [[Hpc ->] | [Hpc ->]]]; auto.
    + destruct Hat as [[Hpc ->] | [Hpc ->]]; auto.
      destruct (G5 Hpc) as [h ->]. eauto.
Qed.

(** The "Resolved" line after a resolution that succeeded. *)
Lemma main_step_after_resolution (sched : Schedule) (a : Answer) ad addr h :
  calls_of Main (hist (run sched init)) = EvResolveUDPAddr ad (inl addr) :: h ->
  status (run sched init) = Running ->
  hist (step Main a (run sched init))
  = (Main, EvPrintf ("Resolved " +++ UDPAddr_String (Some addr) +++ "."))
    :: hist (run sched init).
Proof.
  pose proof (reachable_startup_follows_program sched)
    as (_ & _ & _ & _ & M4 & _).
  revert M4. generalize (run sched init) as s. intros s M4 Hc Est.
  destruct (M4 _ _ _ Hc) as [(_ & Hpc & Hv) | (_ & Hpc & Hv)];
    unfold step; rewrite Est; unfold main_step; rewrite Hpc;
    state_simpl; now rewrite (Hv _ eq_refl).
Qed.

(** X7: in every run each resolution, dial, bind and write comes directly
    after the line that announces it ("Resolving broadcast address..",
    "Resolving listen address..", "Dialing broadcast address..", "Beginning
    to listen..", "Broadcasting.."), in the thread that makes the call; and
    the call main makes after a resolution that succeeded prints "Resolved ",
    the address the resolution returned, and a full stop. *)
Theorem X7_network_calls_are_announced (sched : Schedule) :
  let s := run sched init in
  always call_is_announced (calls_of Main (hist s))
  /\ always call_is_announced (calls_of Goroutine (hist s))
  /\ always resolution_is_logged (calls_of Main (hist s))
  /\ (forall ad addr h a,
        calls_of Main (hist s) = EvResolveUDPAddr ad (inl addr) :: h ->
        status s = Running ->
        hist (step Main a s)
        = (Main, EvPrintf ("Resolved " +++ UDPAddr_String (Some addr) +++ "."))
          :: hist s).
Proof.
  intros s. subst s.
  split; [apply network_calls_are_announced|].
  split; [apply network_calls_are_announced|].
  split.
  - revert sched. apply always_calls.
    + intros e ad addr h' H. discriminate H.
    + intros sched a e Hstep e' ad addr h' H. injection H as <- Hc.
      rewrite (main_step_after_resolution sched a _ _ _ Hc) in Hstep
        by (eapply call_means_running; eassumption).
      now injection Hstep as <-.
  - intros ad addr h a. apply main_step_after_resolution.
Qed.

(** X7 applied to the resolution of the broadcast address. *)
Lemma X7_network_calls_are_announced_witness :
  hist (step Main world (run (repeat (Main, world) 6) init))
  = (Main, EvPrintf "Resolved 255.255.255.255:2002.")
    :: hist (run (repeat (Main, world) 6) init).
Proof.
  assert (Hc : calls_of Main (hist (run (repeat (Main, world) 6) init))
               = EvResolveUDPAddr broadcastAddress (inl limited_broadcast)
                 :: calls_of Main (hist (run (repeat (Main, world) 5) init)))
    by (vm_compute; reflexivity).
  assert (Est : status (run (repeat (Main, world) 6) init) = Running)
    by (vm_compute; reflexivity).
  exact (proj2 (proj2 (proj2 (X7_network_calls_are_announced
                                (repeat (Main, world) 6))))
           _ _ _ world Hc Est).
Defined.

(** X8: the two threads divide the work: in every run the goroutine only
    prints, dials, sleeps, writes and calls [log.Fatalf]; main never dials,
    sleeps or writes, and never panics, closes the socket or returns. *)
Theorem X8_threads_divide_the_calls (sched : Schedule) (t : Thread) (e : event) :
  In (t, e) (hist (run sched init)) -> call_of_thread t e = true.
Proof.
  revert t e. revert sched. apply (run_invariant_reach
    (fun s => forall t e, In (t, e) (hist s) -> call_of_thread t e = true)).
  - intros t e [].
  - intros sched t a. pose proof (reachable_wf sched) as Hwf.
    revert Hwf. generalize (run sched init) as s.
    intros s (_ & Hret & Hbuf & Hn & _) Hinv.
    step_cases t a s.
    all: try exact Hinv.
    all: try congruence.
    all: try (intros t' e' [E | Hin];
              [injection E as <- <-; reflexivity | now apply Hinv]).
    exfalso. specialize (Hbuf eq_refl). specialize (Hn _ _ _ eq_refl).
    rewrite slice_in_bounds in Heqo by (rewrite Hbuf; lia). discriminate.
Qed.

(** X8 applied to the first sleep of the goroutine. *)
Lemma X8_threads_divide_the_calls_witness :
  call_of_thread Goroutine (EvSleep 1000000000) = true.
Proof.
  apply (X8_threads_divide_the_calls (startup ++ broadcast_once)).
  vm_compute. tauto.
Defined.
